(** * data_analysis.ipynb: the notebook's glue code, embedded and verified

    The notebook is a linear script.  Its own logic is: build a SQL string
    from a template, write the query result to a CSV file, edit a schema
    document in place, and reset a workspace directory.  Each of these is
    embedded below as a function on explicit data, next to the cell it comes
    from, and the properties stated about it are proved. *)

From Stdlib Require Import ZArith DecimalString Ascii String Floats.PrimFloat.
From Stdlib Require DecimalPos DecimalZ.
From stdpp Require Import gmap strings list fin_maps.

Local Open Scope Z_scope.

(* 0.9 is written in decimal, as the notebook writes it. *)
Set Warnings "-inexact-float".
Set Warnings "-clear-no-such-hyp".

(* stdpp freezes string append under [simpl]; the scans below are unfolded
   character by character, so it is released again. *)
#[local] Arguments String.append !s1 s2 : simpl nomatch.

(** ** Python strings

    [str] values are modelled as [string]; the two methods the notebook
    uses, [str.replace] and the [in] test, are written as left-to-right
    scans. *)

Module PyStr.

(** The line feed, Python's ["\n"]. *)
Definition nl : string := String (ascii_of_nat 10) "".

(** [lines_nl ls] is every line of [ls] followed by a line feed. *)
Fixpoint lines_nl (ls : list string) : string :=
  match ls with
  | [] => ""
  | l :: ls' => l +:+ nl +:+ lines_nl ls'
  end.

(** [s.replace(old, new)] for a non-empty [old]: scan [s] from the left;
    where [old] starts, emit [new] and jump over the match, otherwise copy
    one character.  [skip] counts the characters of a match still to jump
    over, which keeps the recursion structural. *)
Fixpoint replace_from (old new : string) (skip : nat) (s : string) : string :=
  match s with
  | "" => ""
  | String c s' =>
      match skip with
      | S k => replace_from old new k s'
      | O =>
          if String.prefix old s
          then new +:+ replace_from old new (String.length old - 1) s'
          else String c (replace_from old new 0 s')
      end
  end%string.

(** [s.replace("", new)]: [new] goes before every character and at the
    end. *)
Fixpoint interleave (new s : string) : string :=
  match s with
  | "" => new
  | String c s' => new +:+ String c (interleave new s')
  end%string.

(** [s.replace(old, new)]. *)
Definition replace (s old new : string) : string :=
  match old with
  | "" => interleave new s
  | _ => replace_from old new 0 s
  end%string.

(** [sub in s]. *)
Fixpoint contains (sub s : string) : bool :=
  String.prefix sub s ||
  match s with
  | "" => false
  | String _ s' => contains sub s'
  end%string.

(** [c in s] for one character. *)
Fixpoint has_char (c : ascii) (s : string) : bool :=
  match s with
  | "" => false
  | String b s' => Ascii.eqb c b || has_char c s'
  end%string.

(** [s.count(c)] for one character. *)
Fixpoint count_char (c : ascii) (s : string) : nat :=
  match s with
  | "" => 0%nat
  | String b s' => ((if Ascii.eqb c b then 1 else 0) + count_char c s')%nat
  end%string.

(** [str(n)] for an [int]: decimal digits, a leading minus sign for a
    negative number, ["0"] for zero. *)
Definition str (n : Z) : string := NilZero.string_of_int (Z.to_int n).

End PyStr.

(** ** Cell 13: the query template *)

(** The fifteen output columns, in the order of the SELECT list. *)
Definition SELECTED_COLUMNS : list string :=
  ["age"; "workclass"; "fnlwgt"; "education"; "education_num";
   "marital_status"; "occupation"; "relationship"; "race"; "gender";
   "capital_gain"; "capital_loss"; "hours_per_week"; "native_country";
   "income_bracket"]%string.

(** [SOURCE_QUERY], the triple-quoted literal, line by line.  The literal
    opens with a line feed and every line ends with one; [SELECT ] and
    [FROM ] carry a trailing blank. *)
Definition SOURCE_QUERY : string :=
  PyStr.lines_nl
    [ "";
      "    SELECT ";
      "        age,";
      "        workclass,";
      "        fnlwgt,";
      "        education,";
      "        education_num,";
      "        marital_status,";
      "        occupation,";
      "        relationship,";
      "        race,";
      "        gender,";
      "        capital_gain,";
      "        capital_loss,";
      "        hours_per_week,";
      "        native_country,";
      "        CASE WHEN income_bracket = ' <=50K' THEN 0 ELSE 1 END AS income_bracket";
      "    FROM ";
      "        @dataset_name.census";
      "    WHERE";
      "        age <= @age"
    ]%string.

(** ** Cell 15: filling in the template

    [SOURCE_QUERY.replace('@age', age_text).replace('@dataset_name', dataset_name)],
    the expression of cell 15 with its two literals as arguments. *)
Definition fill_template (age_text dataset_name : string) : string :=
  PyStr.replace (PyStr.replace SOURCE_QUERY "@age" age_text)
                "@dataset_name" dataset_name.

(** The templating operation for an integer age threshold. *)
Definition template_query (age : Z) (dataset_name : string) : string :=
  fill_template (PyStr.str age) dataset_name.

(** [sql] as cell 15 computes it. *)
Definition sql : string := fill_template "100" "sample_dataset".

(** The template around its two tokens:
    [SOURCE_QUERY = query_head ++ "@dataset_name" ++ query_mid ++ "@age" ++ nl]. *)
Definition query_head : string :=
  PyStr.lines_nl
    [ "";
      "    SELECT ";
      "        age,";
      "        workclass,";
      "        fnlwgt,";
      "        education,";
      "        education_num,";
      "        marital_status,";
      "        occupation,";
      "        relationship,";
      "        race,";
      "        gender,";
      "        capital_gain,";
      "        capital_loss,";
      "        hours_per_week,";
      "        native_country,";
      "        CASE WHEN income_bracket = ' <=50K' THEN 0 ELSE 1 END AS income_bracket";
      "    FROM "
    ]%string +:+ "        ".

Definition query_mid : string :=
  ".census" +:+ PyStr.nl +:+ "    WHERE" +:+ PyStr.nl +:+ "        age <= ".

(** ** The extraction query as SQL

    The text of [SOURCE_QUERY] is a query in BigQuery's SQL.  Its syntax tree
    is written out here; [render] prints a tree back in the layout of the
    template, which ties the tree to the text character by character
    ([render_template] below). *)

Module SQL.

(** A cell of a table. *)
Inductive value : Type :=
| VNull
| VInt (n : Z)
| VStr (s : string).

(** An entry of a SELECT list: a column, or
    [CASE WHEN col = 'lit' THEN t ELSE e END AS alias]. *)
Inductive item : Type :=
| Column (name : string)
| CaseWhenEq (col lit : string) (then_ else_ : Z) (alias : string).

Record query : Type := {
  select_list : list item;
  from_table : string;
  age_bound : Z              (* WHERE age <= age_bound *)
}.

(** The name of the result column an entry produces. *)
Definition output_name (i : item) : string :=
  match i with
  | Column name => name
  | CaseWhenEq _ _ _ _ alias => alias
  end.

(** A row of the source table: column name to cell. *)
Definition row : Type := string → value.

(** [v = 'lit']: TRUE only for a string equal to the literal, character
    for character: blanks count, nothing is trimmed.  A NULL makes the
    comparison NULL, which CASE and WHERE treat as not TRUE; a cell that is
    no string is never equal to a string literal. *)
Definition equals_literal (v : value) (lit : string) : bool :=
  match v with
  | VStr s => String.eqb s lit
  | _ => false
  end.

Definition eval_item (r : row) (i : item) : value :=
  match i with
  | Column name => r name
  | CaseWhenEq col lit then_ else_ _ =>
      if equals_literal (r col) lit then VInt then_ else VInt else_
  end.

(** [age <= bound]. *)
Definition where_holds (bound : Z) (r : row) : bool :=
  match r "age"%string with
  | VInt n => n <=? bound
  | _ => false
  end.

(** Modelled from the spec: the warehouse engine that executes the query
    is not in the notebook.  It returns, for every row of the table that
    passes the WHERE clause, the cells of the SELECT list in order. *)
Definition run (q : query) (table : list row) : list (list value) :=
  map (λ r, map (eval_item r) (select_list q))
      (filter (λ r, where_holds (age_bound q) r = true) table).

Definition render_item (i : item) : string :=
  match i with
  | Column name => name
  | CaseWhenEq col lit then_ else_ alias =>
      "CASE WHEN " +:+ col +:+ " = '" +:+ lit +:+ "' THEN " +:+ PyStr.str then_
      +:+ " ELSE " +:+ PyStr.str else_ +:+ " END AS " +:+ alias
  end.

Fixpoint render_items (items : list item) : string :=
  match items with
  | [] => ""
  | [i] => "        " +:+ render_item i +:+ PyStr.nl
  | i :: items' =>
      "        " +:+ render_item i +:+ "," +:+ PyStr.nl +:+ render_items items'
  end.

(** The layout of the template, with the table and the bound as text. *)
Definition render_text (items : list item) (table bound : string) : string :=
  PyStr.nl +:+ "    SELECT " +:+ PyStr.nl
  +:+ render_items items
  +:+ "    FROM " +:+ PyStr.nl
  +:+ "        " +:+ table +:+ PyStr.nl
  +:+ "    WHERE" +:+ PyStr.nl
  +:+ "        age <= " +:+ bound +:+ PyStr.nl.

Definition render (q : query) : string :=
  render_text (select_list q) (from_table q) (PyStr.str (age_bound q)).

End SQL.

(** The CASE entry of the template: the label recode. *)
Definition income_bracket_case : SQL.item :=
  SQL.CaseWhenEq "income_bracket" " <=50K" 0 1 "income_bracket".

(** The SELECT list of the template. *)
Definition SOURCE_SELECT : list SQL.item :=
  [ SQL.Column "age"; SQL.Column "workclass"; SQL.Column "fnlwgt";
    SQL.Column "education"; SQL.Column "education_num";
    SQL.Column "marital_status"; SQL.Column "occupation";
    SQL.Column "relationship"; SQL.Column "race"; SQL.Column "gender";
    SQL.Column "capital_gain"; SQL.Column "capital_loss";
    SQL.Column "hours_per_week"; SQL.Column "native_country";
    income_bracket_case ].

(** The query that the filled template spells out. *)
Definition source_query (age : Z) (dataset_name : string) : SQL.query :=
  {| SQL.select_list := SOURCE_SELECT;
     SQL.from_table := dataset_name +:+ ".census";
     SQL.age_bound := age |}.

(** The label of one source row: what the CASE entry yields for the row's
    [income_bracket]. *)
Definition recode_label (v : SQL.value) : SQL.value :=
  SQL.eval_item (λ _, v) income_bracket_case.

(** ** Cells 15 and 19: the query result as a dataframe, written as CSV *)

Module Pandas.

(** A dataframe: column labels, row labels, and the cells row by row. *)
Record DataFrame : Type := {
  columns : list string;
  index : list Z;
  data : list (list SQL.value)
}.

(** Modelled from the spec: [client.query(sql).to_dataframe()] belongs to
    the warehouse client and is not in the notebook.  It materializes the
    result as a table in memory: the result columns in the order of the
    SELECT list, the rows numbered from 0. *)
Definition to_dataframe (q : SQL.query) (table : list SQL.row) : DataFrame :=
  let rows := SQL.run q table in
  {| columns := map SQL.output_name (SQL.select_list q);
     index := map Z.of_nat (seq 0 (length rows));
     data := rows |}.

Section ToCsv.

(** How one cell is spelled in the file (digits, text, quoting): the
    writer's business, left open here. *)
Variable cell_text : SQL.value → string.

(** Modelled from the spec: [df.to_csv(path, index=...)] belongs to pandas
    and is not in the notebook.  It writes a header row of column names
    followed by one record per row; given here are the records handed to the
    CSV writer, header first.  With [index=True] every record starts with
    the row label, and the header with an empty label; with [index=False]
    the records are the columns alone. *)
Definition to_csv (df : DataFrame) (index_flag : bool) : list (list string) :=
  let header :=
    if index_flag then ""%string :: columns df else columns df in
  let record (i : Z) (r : list SQL.value) :=
    if index_flag then PyStr.str i :: map cell_text r else map cell_text r in
  header :: zip_with record (index df) (data df).

End ToCsv.

(** A record as a line of the file: its fields with commas between. *)
Definition csv_line (fields : list string) : string :=
  String.concat "," fields.

End Pandas.

(** [df] of cell 15, given the rows of [sample_dataset.census]: the result
    of the query that [sql] spells out. *)
Definition df (census : list SQL.row) : Pandas.DataFrame :=
  Pandas.to_dataframe (source_query 100 "sample_dataset") census.

(** The records of [train.csv]: [df.to_csv(TRAIN_DATA_FILE, index=False)]. *)
Definition train_csv (cell_text : SQL.value → string) (census : list SQL.row)
  : list (list string) :=
  Pandas.to_csv cell_text (df census) false.

(** ** Python results

    A call returns a value or raises; nothing in the notebook catches an
    exception, so a raise ends the cell. *)

Inductive exn : Type :=
| ValueError
| AttributeError
| NotFoundError
| FailedPreconditionError.

Inductive result (A : Type) : Type :=
| Ok (a : A)
| Raise (e : exn).

Arguments Ok {A} a.
Arguments Raise {A} e.

(** Sequencing: the first exception raised is the outcome. *)
#[global] Instance result_bind : MBind result := λ A B k r,
  match r with
  | Ok a => k a
  | Raise e => Raise e
  end.

#[global] Instance result_ret : MRet result := λ A a, Ok a.

(** ** Cell 29: the schema document and its edits

    The schema is a protocol-buffer message; the notebook reaches into it
    through [tfdv.get_feature] and [tfdv.get_domain], which hand back parts
    of the message itself, and changes those parts in place.  A part is
    modelled by where it sits in the message, and an edit by the update of
    the message at that place. *)

Module Tfdv.

(** The fields of the schema message that the notebook reads or writes. *)
Record StringDomain : Type := {
  domain_name : string;
  value : list string
}.

(** The [domain_info] of a feature: unset, a reference by name to a
    string domain of the schema, a string domain of its own, or a domain
    of another kind (integer, float, boolean, ...), which has no [value]
    list. *)
Inductive DomainInfo : Type :=
| NoDomain
| DomainName (d : string)
| OwnStringDomain (d : StringDomain)
| OtherDomain.

Record DistributionConstraints : Type := {
  min_domain_mass : option float      (* [None]: not set *)
}.

Record Feature : Type := {
  name : string;
  domain_info : DomainInfo;
  distribution_constraints : DistributionConstraints;
  not_in_environment : list string
}.

Record Schema : Type := {
  feature : list Feature;
  string_domain : list StringDomain;
  default_environment : list string
}.

(** Where a feature sits: its position in [schema.feature]. *)
Abbreviation feature_ref := nat.

(** Where a domain sits: in [schema.string_domain], or inside a feature. *)
Inductive domain_ref : Type :=
| InSchema (k : nat)
| InFeature (i : feature_ref).

(** Modelled from the spec: [tfdv.get_feature] belongs to the validation
    library and is not in the notebook.  It looks up a named feature: the
    first entry of [schema.feature] with that name, and a [ValueError]
    when there is none. *)
Definition get_feature (s : Schema) (n : string) : result feature_ref :=
  match list_find (λ f, name f = n) (feature s) with
  | Some (i, _) => Ok i
  | None => Raise ValueError
  end.

(** Modelled from the spec: [tfdv.get_domain] belongs to the validation
    library and is not in the notebook.  It looks up the domain of a named
    feature: the feature's own domain, or, for a reference by name, the
    first string domain of the schema with that name; a [ValueError] when
    the feature has no domain or the name leads nowhere. *)
Definition get_domain (s : Schema) (n : string) : result domain_ref :=
  i ← get_feature s n;
  match domain_info <$> feature s !! i with
  | Some (DomainName d) =>
      match list_find (λ sd, domain_name sd = d) (string_domain s) with
      | Some (k, _) => Ok (InSchema k)
      | None => Raise ValueError
      end
  | Some NoDomain | None => Raise ValueError
  | Some _ => Ok (InFeature i)
  end.

(** The feature and the string domain behind a reference. *)
Definition feature_at (s : Schema) (i : feature_ref) : option Feature :=
  feature s !! i.

Definition domain_at (s : Schema) (r : domain_ref) : option StringDomain :=
  match r with
  | InSchema k => string_domain s !! k
  | InFeature i =>
      match domain_info <$> feature s !! i with
      | Some (OwnStringDomain d) => Some d
      | _ => None
      end
  end.

(** [f.distribution_constraints.min_domain_mass = x] *)
Definition set_min_domain_mass (x : float) (f : Feature) : Feature :=
  {| name := name f;
     domain_info := domain_info f;
     distribution_constraints := {| min_domain_mass := Some x |};
     not_in_environment := not_in_environment f |}.

(** [f.not_in_environment.append(e)] *)
Definition append_not_in_environment (e : string) (f : Feature) : Feature :=
  {| name := name f;
     domain_info := domain_info f;
     distribution_constraints := distribution_constraints f;
     not_in_environment := not_in_environment f ++ [e] |}.

(** [d.value.append(v)] *)
Definition append_value (v : string) (d : StringDomain) : StringDomain :=
  {| domain_name := domain_name d; value := value d ++ [v] |}.

Definition set_own_domain (d : StringDomain) (f : Feature) : Feature :=
  {| name := name f;
     domain_info := OwnStringDomain d;
     distribution_constraints := distribution_constraints f;
     not_in_environment := not_in_environment f |}.

(** An edit of the feature behind a reference, seen in the schema. *)
Definition update_feature (i : feature_ref) (g : Feature → Feature) (s : Schema)
  : Schema :=
  {| feature := alter g i (feature s);
     string_domain := string_domain s;
     default_environment := default_environment s |}.

(** [r.value.append(v)], seen in the schema.  A domain without a [value]
    list raises [AttributeError]. *)
Definition domain_value_append (r : domain_ref) (v : string) (s : Schema)
  : result Schema :=
  match r with
  | InSchema k =>
      Ok {| feature := feature s;
            string_domain := alter (append_value v) k (string_domain s);
            default_environment := default_environment s |}
  | InFeature i =>
      match domain_at s r with
      | Some d => Ok (update_feature i (set_own_domain (append_value v d)) s)
      | None => Raise AttributeError
      end
  end.

(** [schema.default_environment.append(e)] *)
Definition default_environment_append (e : string) (s : Schema) : Schema :=
  {| feature := feature s;
     string_domain := string_domain s;
     default_environment := default_environment s ++ [e] |}.

(** What [f.distribution_constraints.min_domain_mass] reads: the value
    set, or the default of the field, 1.0. *)
Definition read_min_domain_mass (f : Feature) : float :=
  default 1%float (min_domain_mass (distribution_constraints f)).

End Tfdv.

(** Cell 22. *)
Definition TARGET_FEATURE_NAME : string := "income_bracket".
Definition WEIGHT_FEATURE_NAME : string := "fnlwgt".

(** The three appends to [schema.default_environment] of cell 29. *)
Definition register_environments (schema : Tfdv.Schema) : Tfdv.Schema :=
  Tfdv.default_environment_append "SERVING"
    (Tfdv.default_environment_append "EVALUATION"
       (Tfdv.default_environment_append "TRAINING" schema)).

(** Cell 29, statement by statement. *)
Definition alter_schema (schema : Tfdv.Schema) : result Tfdv.Schema :=
  occupation ← Tfdv.get_feature schema "occupation";
  let schema := Tfdv.update_feature occupation (Tfdv.set_min_domain_mass 0.9) schema in
  native_country_domain ← Tfdv.get_domain schema "native_country";
  schema ← Tfdv.domain_value_append native_country_domain "Egypt" schema;
  let schema := register_environments schema in
  target ← Tfdv.get_feature schema TARGET_FEATURE_NAME;
  Ok (Tfdv.update_feature target (Tfdv.append_not_in_environment "SERVING") schema).

(** [l.count(x)]: how often [x] occurs in a list. *)
Definition occurrences (x : string) (l : list string) : nat :=
  length (filter (λ y, y = x) l).

(** The names cell 29 appends, in the order it appends them. *)
Definition ENVIRONMENTS : list string :=
  ["TRAINING"; "EVALUATION"; "SERVING"]%string.

(** A schema of the kind inference gives for the extracted data, cut down
    to three features: categorical features refer to a string domain of
    their own name, the label is numeric. *)
Definition inferred_example : Tfdv.Schema :=
  {| Tfdv.feature :=
       [ {| Tfdv.name := "occupation";
            Tfdv.domain_info := Tfdv.DomainName "occupation";
            Tfdv.distribution_constraints := {| Tfdv.min_domain_mass := None |};
            Tfdv.not_in_environment := [] |};
         {| Tfdv.name := "native_country";
            Tfdv.domain_info := Tfdv.DomainName "native_country";
            Tfdv.distribution_constraints := {| Tfdv.min_domain_mass := None |};
            Tfdv.not_in_environment := [] |};
         {| Tfdv.name := "income_bracket";
            Tfdv.domain_info := Tfdv.NoDomain;
            Tfdv.distribution_constraints := {| Tfdv.min_domain_mass := None |};
            Tfdv.not_in_environment := [] |} ];
     Tfdv.string_domain :=
       [ {| Tfdv.domain_name := "occupation";
            Tfdv.value := ["?"; "Machine-op-inspct"; "Other-service"]%string |};
         {| Tfdv.domain_name := "native_country";
            Tfdv.value := ["Mexico"; "Cambodia"; "United-States"]%string |} ];
     Tfdv.default_environment := [] |}.

(** What cell 29 makes of [inferred_example]. *)
Definition altered_example : Tfdv.Schema :=
  {| Tfdv.feature :=
       [ {| Tfdv.name := "occupation";
            Tfdv.domain_info := Tfdv.DomainName "occupation";
            Tfdv.distribution_constraints :=
              {| Tfdv.min_domain_mass := Some 0.9%float |};
            Tfdv.not_in_environment := [] |};
         {| Tfdv.name := "native_country";
            Tfdv.domain_info := Tfdv.DomainName "native_country";
            Tfdv.distribution_constraints := {| Tfdv.min_domain_mass := None |};
            Tfdv.not_in_environment := [] |};
         {| Tfdv.name := "income_bracket";
            Tfdv.domain_info := Tfdv.NoDomain;
            Tfdv.distribution_constraints := {| Tfdv.min_domain_mass := None |};
            Tfdv.not_in_environment := ["SERVING"%string] |} ];
     Tfdv.string_domain :=
       [ {| Tfdv.domain_name := "occupation";
            Tfdv.value := ["?"; "Machine-op-inspct"; "Other-service"]%string |};
         {| Tfdv.domain_name := "native_country";
            Tfdv.value :=
              ["Mexico"; "Cambodia"; "United-States"; "Egypt"]%string |} ];
     Tfdv.default_environment := ["TRAINING"; "EVALUATION"; "SERVING"]%string |}.

(** ** Cell 3: the workspace directories

    The file system is a finite map from paths to what is there: a
    directory, a plain file, or a symbolic link with the path it leads to.
    A path is the list of its components below the working directory, which
    is the empty path and always a directory.  A plain file stands for
    whatever is neither a directory nor a link.  Access rights are not part
    of the model: the process may read and change every entry.  A cell runs
    against a world: the file system, what has been printed, and the
    file-system calls made so far. *)

Module Gfile.

(** The target of a link is the path it leads to, written from the working
    directory like every other path. *)
Inductive entry : Type :=
| Dir
| File
| Link (target : list string).

#[global] Instance entry_eq_dec : EqDecision entry.
Proof. solve_decision. Defined.

(** Why a path leads nowhere: nothing is there, a plain file is in the way,
    or there are too many links to follow. *)
Inductive errno : Type :=
| ENOENT
| ENOTDIR
| ELOOP.

Inductive call : Type :=
| Exists (p : list string)
| Rmtree (p : list string)
| Mkdir (p : list string).

Record world : Type := {
  files : gmap (list string) entry;
  stdout : list string;
  calls : list call
}.

(** A step of a cell: a result and the world after it, or an exception. *)
Definition io (A : Type) : Type := world → result (A * world).

#[global] Instance io_ret : MRet io := λ A a w, Ok (a, w).

#[global] Instance io_bind : MBind io := λ A B k m w,
  match m w with
  | Ok (a, w') => k a w'
  | Raise e => Raise e
  end.

(** The entry at a path, no link followed. *)
Definition at_path (m : gmap (list string) entry) (p : list string) : option entry :=
  match p with
  | [] => Some Dir
  | _ => m !! p
  end.

(** The directory a path lies in. *)
Definition parent (p : list string) : list string := removelast p.

(** How many links the system follows for one path before it gives up. *)
Definition SYMLOOP_MAX : nat := 40.

(** The walk along a path, component by component from [cur], the way the
    system resolves it: a directory is entered, a link is replaced by the
    path it leads to, and a plain file ends the walk.  The outcome is the
    place reached, a path without links on it. *)
Fixpoint walk (hops : nat) (m : gmap (list string) entry)
    : list string → list string → errno + list string :=
  fix go (cur rest : list string) {struct rest} : errno + list string :=
    match rest with
    | [] => inr cur
    | c :: rest' =>
        match m !! (cur ++ [c]) with
        | Some Dir => go (cur ++ [c]) rest'
        | Some File =>
            match rest' with
            | [] => inr (cur ++ [c])
            | _ => inl ENOTDIR
            end
        | Some (Link target) =>
            match hops with
            | O => inl ELOOP
            | S hops' => walk hops' m [] (target ++ rest')
            end
        | None => inl ENOENT
        end
    end.

Definition realpath (m : gmap (list string) entry) (p : list string)
  : errno + list string :=
  walk SYMLOOP_MAX m [] p.

(** What a path leads to, links followed: a directory or a plain file. *)
Definition stat (m : gmap (list string) entry) (p : list string) : errno + entry :=
  match realpath m p with
  | inl e => inl e
  | inr q =>
      match at_path m q with
      | Some e => inr e
      | None => inl ENOENT
      end
  end.

(** Where the last component of a path sits: the directory it lies in is
    resolved, the component itself is not followed. *)
Definition locate (m : gmap (list string) entry) (p : list string)
  : errno + list string :=
  match p with
  | [] => inr []
  | _ =>
      match realpath m (parent p) with
      | inl e => inl e
      | inr d =>
          match at_path m d with
          | Some Dir => inr (d ++ [List.last p ""%string])
          | _ => inl ENOTDIR
          end
      end
  end.

Definition is_link (e : entry) : bool :=
  match e with
  | Link _ => true
  | _ => false
  end.

Definition is_directory (m : gmap (list string) entry) (p : list string) : bool :=
  match stat m p with
  | inr Dir => true
  | _ => false
  end.

(** The exception TensorFlow raises for a path that leads nowhere. *)
Definition raise_errno (e : errno) : exn :=
  match e with
  | ENOENT => NotFoundError
  | ENOTDIR | ELOOP => FailedPreconditionError
  end.

Definition called (c : call) (w : world) : world :=
  {| files := files w; stdout := stdout w; calls := calls w ++ [c] |}.

Definition with_files (m : gmap (list string) entry) (w : world) : world :=
  {| files := m; stdout := stdout w; calls := calls w |}.

(** What is left when [p] and everything below it is taken away. *)
Definition without_tree (p : list string) (m : gmap (list string) entry)
  : gmap (list string) entry :=
  filter (λ kv, ¬ p `prefix_of` kv.1) m.

(** [print(line)] *)
Definition print (line : string) : io unit :=
  λ w, Ok (tt, {| files := files w; stdout := stdout w ++ [line]; calls := calls w |}).

(** Modelled from the spec: [tf.io.gfile.exists] belongs to TensorFlow and
    is not in the notebook.  It tells whether there is a file or a
    directory at the path.  Where the spec is silent the model follows
    TensorFlow's local file system: links are followed, so a link that leads
    nowhere is reported as not there. *)
Definition exists_ (p : list string) : io bool :=
  λ w, Ok (match stat (files w) p with
           | inr _ => true
           | inl _ => false
           end,
           called (Exists p) w).

(** A symbolic link that leads to a directory: the removal takes it for a
    directory, and the system then refuses to remove it as one. *)
Definition rmdir_refused (m : gmap (list string) entry) (p : list string) (e : entry)
  : bool :=
  is_link e && is_directory m p.

(** Modelled from the spec: [tf.io.gfile.rmtree] belongs to TensorFlow and
    is not in the notebook.  It deletes everything at and below the path, a
    plain file as well as a directory.  Where the spec is silent the model
    follows TensorFlow's local file system: [NotFoundError] when the path
    leads nowhere; a path that leads to a plain file is unlinked, be it the
    file or a link to it; a directory goes with all that is below it, links
    to plain files and links that lead nowhere included, unless the path
    itself or something below it is a link to a directory, which ends the
    call with an exception. *)
Definition rmtree (p : list string) : io unit :=
  λ w,
    match stat (files w) p with
    | inl e => Raise (raise_errno e)
    | inr what =>
        match locate (files w) p with
        | inl e => Raise (raise_errno e)
        | inr q =>
            match what with
            | Dir =>
                if decide (map_Forall
                             (λ r e, q `prefix_of` r → rmdir_refused (files w) r e = false)
                             (files w))
                then Ok (tt, with_files (without_tree q (files w)) (called (Rmtree p) w))
                else Raise FailedPreconditionError
            | _ => Ok (tt, with_files (delete q (files w)) (called (Rmtree p) w))
            end
        end
    end.

(** Modelled from the spec: [tf.io.gfile.mkdir] belongs to TensorFlow and
    is not in the notebook.  It creates one directory, empty, inside an
    existing directory.  Where the spec is silent the model follows
    TensorFlow's local file system: a name that is taken already, by a link
    that leads nowhere as well, is left as it is; a parent that leads
    nowhere raises [NotFoundError], a parent that is a plain file
    [FailedPreconditionError]. *)
Definition mkdir (p : list string) : io unit :=
  λ w,
    match locate (files w) p with
    | inl e => Raise (raise_errno e)
    | inr q =>
        match at_path (files w) q with
        | Some _ => Ok (tt, called (Mkdir p) w)
        | None => Ok (tt, with_files (<[q := Dir]> (files w)) (called (Mkdir p) w))
        end
    end.

(** [os.path.join(dir, name)] on component lists. *)
Definition path_join (dir : list string) (name : string) : list string :=
  dir ++ [name].


End Gfile.

Definition WORKSPACE : list string := ["workspace"%string].
Definition DATA_DIR : list string := Gfile.path_join WORKSPACE "data".
Definition RAW_SCHEMA_DIR : list string := ["raw_schema"%string].

(** Cell 3 after its constants: the guarded removal, then the two
    directories. *)
Definition setup_workspace : Gfile.io unit :=
  present ← Gfile.exists_ WORKSPACE;
  (if present : bool
   then Gfile.print "Removing previous workspace...";;
        Gfile.rmtree WORKSPACE
   else mret ());;
  Gfile.print "Creating new workspace...";;
  Gfile.mkdir WORKSPACE;;
  Gfile.print "Creating data directory...";;
  Gfile.mkdir DATA_DIR.

(** A world in which nothing has run yet. *)
Definition fresh_world (m : gmap (list string) Gfile.entry) : Gfile.world :=
  {| Gfile.files := m; Gfile.stdout := []; Gfile.calls := [] |}.





(** A workspace with a link in it to a directory elsewhere. *)
Definition linked_cache : gmap (list string) Gfile.entry :=
  {[ WORKSPACE := Gfile.Dir;
     Gfile.path_join WORKSPACE "cache" := Gfile.Link ["scratch"%string];
     ["scratch"%string] := Gfile.Dir ]}.

(** ** Cell 7: the class distribution *)

#[global] Instance SQL_value_eq_dec : EqDecision SQL.value.
Proof. solve_decision. Defined.

(** The [income_bracket] cells of a table, row by row. *)
Definition income_brackets (census : list SQL.row) : list SQL.value :=
  map (λ r, r "income_bracket"%string) census.

(** How many rows of a table have a given [income_bracket]. *)
Definition bracket_count (k : SQL.value) (census : list SQL.row) : Z :=
  Z.of_nat (length (filter (λ x, x = k) (income_brackets census))).

(** The query of cell 7, [SELECT income_bracket, count(all rows) count FROM
    census GROUP BY income_bracket]: one result row per distinct
    [income_bracket] of the table, NULL a bracket of its own, with the
    number of rows that have it. *)
Definition class_distribution (census : list SQL.row) : list (SQL.value * Z) :=
  map (λ k, (k, bracket_count k census)) (remove_dups (income_brackets census)).

(** The count a distribution shows for a bracket, 0 when it has no row for
    it. *)
Definition shown_count (k : SQL.value) (dist : list (SQL.value * Z)) : Z :=
  match list_find (λ kc : SQL.value * Z, kc.1 = k) dist with
  | Some (_, (_, n)) => n
  | None => 0
  end.

(** The labels of the extracted rows: the last cell of each. *)
Definition labels (rows : list (list SQL.value)) : list SQL.value :=
  omap last rows.

(** The sum of the counts a distribution shows. *)
Definition total_count (dist : list (SQL.value * Z)) : Z :=
  foldr (λ kc acc, kc.2 + acc) 0 dist.

(** A row of the census table with the two cells the queries look at,
    every other cell NULL. *)
Definition census_row (age : Z) (bracket : string) : SQL.row :=
  λ column,
    if String.eqb column "age" then SQL.VInt age
    else if String.eqb column "income_bracket" then SQL.VStr bracket
    else SQL.VNull.

(** ** Cell 31: the schema directory

    The same file system as for cell 3, reached through Python's own [os]
    and [shutil] instead of [tf.io.gfile]. *)

Module Os.

(** The exceptions of the calls; [OSError] stands for an [OSError] that is
    none of the three named ones. *)
Inductive error : Type :=
| FileNotFoundError
| FileExistsError
| NotADirectoryError
| OSError.

Definition of_errno (e : Gfile.errno) : error :=
  match e with
  | Gfile.ENOENT => FileNotFoundError
  | Gfile.ENOTDIR => NotADirectoryError
  | Gfile.ELOOP => OSError
  end.

(** [os.path.exists(p)]: links are followed, so a link that leads nowhere
    is reported as not there. *)
Definition path_exists (m : gmap (list string) Gfile.entry) (p : list string) : bool :=
  match Gfile.stat m p with
  | inr _ => true
  | inl _ => false
  end.

(** [shutil.rmtree(p)]: the directory with all that is below it, links
    below it unlinked and not followed; a plain file is refused, and so is
    a symbolic link. *)
Definition rmtree (p : list string) (m : gmap (list string) Gfile.entry)
  : error + gmap (list string) Gfile.entry :=
  match Gfile.locate m p with
  | inl e => inl (of_errno e)
  | inr q =>
      match Gfile.at_path m q with
      | Some Gfile.Dir => inr (Gfile.without_tree q m)
      | Some Gfile.File => inl NotADirectoryError
      | Some (Gfile.Link _) => inl OSError
      | None => inl FileNotFoundError
      end
  end.

(** [os.mkdir(p)]: one new directory inside an existing one; a name that is
    taken, by a link that leads nowhere as well, is refused. *)
Definition mkdir (p : list string) (m : gmap (list string) Gfile.entry)
  : error + gmap (list string) Gfile.entry :=
  match Gfile.locate m p with
  | inl e => inl (of_errno e)
  | inr q =>
      match Gfile.at_path m q with
      | Some _ => inl FileExistsError
      | None => inr (<[q := Gfile.Dir]> m)
      end
  end.

End Os.

(** Cell 31 up to the directory it writes into: the guarded removal, then
    the directory. *)
Definition reset_raw_schema_dir (m : gmap (list string) Gfile.entry)
  : Os.error + gmap (list string) Gfile.entry :=
  match (if Os.path_exists m RAW_SCHEMA_DIR
         then Os.rmtree RAW_SCHEMA_DIR m
         else inr m) with
  | inl e => inl e
  | inr m' => Os.mkdir RAW_SCHEMA_DIR m'
  end.



(** ** Properties of the string operations *)

Section StringFacts.

Lemma append_assoc (a b c : string) : (a +:+ b) +:+ c = a +:+ (b +:+ c).
Proof. induction a as [|x a IH]; simpl; [done | by rewrite IH]. Qed.

Lemma append_empty_r (a : string) : a +:+ "" = a.
Proof. induction a as [|x a IH]; simpl; [done | by rewrite IH]. Qed.

Lemma prefix_append (sub post : string) : String.prefix sub (sub +:+ post) = true.
Proof.
  induction sub as [|x sub IH]; simpl; [by destruct post |].
  destruct (ascii_dec x x); [apply IH | done].
Qed.

Lemma contains_prefix (sub s : string) :
  String.prefix sub s = true → PyStr.contains sub s = true.
Proof. intros H. destruct s; simpl in *; rewrite H; done. Qed.

(** A string that has [sub] somewhere inside passes the [in] test. *)
Lemma contains_middle (pre sub post : string) :
  PyStr.contains sub (pre +:+ sub +:+ post) = true.
Proof.
  induction pre as [|x pre IH].
  - cbn [String.append]. apply contains_prefix, prefix_append.
  - cbn [String.append PyStr.contains]. rewrite IH. apply orb_true_r.
Qed.

(** And conversely. *)
Lemma prefix_split (sub s : string) :
  String.prefix sub s = true → ∃ post, s = sub +:+ post.
Proof.
  revert s. induction sub as [|x sub IH]; intros s H.
  - by exists s.
  - destruct s as [|y s]; simpl in H; [done |].
    destruct (ascii_dec x y) as [->|]; [| done].
    destruct (IH _ H) as [post ->]. by exists post.
Qed.

Lemma contains_split (sub s : string) :
  PyStr.contains sub s = true → ∃ pre post, s = pre +:+ sub +:+ post.
Proof.
  induction s as [|y s IH]; cbn [PyStr.contains]; intros H.
  - rewrite orb_false_r in H. destruct (prefix_split _ _ H) as [post E].
    exists ""%string, post. done.
  - apply orb_true_iff in H as [H|H].
    + destruct (prefix_split _ _ H) as [post E]. exists ""%string, post. done.
    + destruct (IH H) as (pre & post & ->). exists (String y pre), post. done.
Qed.

Lemma has_char_append (c : ascii) (a b : string) :
  PyStr.has_char c (a +:+ b) = PyStr.has_char c a || PyStr.has_char c b.
Proof.
  induction a as [|x a IH]; simpl; [done |]. by rewrite IH, orb_assoc.
Qed.

(** Where the first character of [old] does not occur, nothing is
    replaced: the scan copies that stretch and goes on behind it. *)
Lemma replace_from_skip_clean (c : ascii) (old' new s rest : string) :
  PyStr.has_char c s = false →
  PyStr.replace_from (String c old') new 0 (s +:+ rest)
  = s +:+ PyStr.replace_from (String c old') new 0 rest.
Proof.
  induction s as [|x s IH]; intros H; [done |].
  simpl in H. apply orb_false_iff in H as [Hx Hs].
  cbn [String.append PyStr.replace_from String.prefix].
  destruct (ascii_dec c x) as [->|Hne].
  - by rewrite Ascii.eqb_refl in Hx.
  - by rewrite IH.
Qed.

Lemma replace_from_clean (c : ascii) (old' new s : string) :
  PyStr.has_char c s = false →
  PyStr.replace_from (String c old') new 0 s = s.
Proof.
  intros H. pose proof (replace_from_skip_clean c old' new s "" H) as E.
  by rewrite !append_empty_r in E.
Qed.

End StringFacts.

(** The decimal rendering of an integer has digits and at most a minus
    sign, so no [@]. *)
Lemma string_of_uint_no_at (d : Decimal.uint) :
  PyStr.has_char "@" (NilEmpty.string_of_uint d) = false.
Proof. induction d; simpl; done. Qed.

Lemma str_no_at (n : Z) : PyStr.has_char "@" (PyStr.str n) = false.
Proof.
  unfold PyStr.str. destruct (Z.to_int n) as [d|d]; simpl.
  - destruct d; simpl; try done; apply string_of_uint_no_at.
  - destruct d; simpl; try done; apply string_of_uint_no_at.
Qed.

(** The template is the text around its two tokens. *)
Lemma SOURCE_QUERY_tokens :
  SOURCE_QUERY
  = query_head +:+ "@dataset_name" +:+ query_mid +:+ "@age" +:+ PyStr.nl.
Proof. reflexivity. Qed.

(** First replacement: the age token, whatever text is put in. *)
Lemma replace_age (t : string) :
  PyStr.replace SOURCE_QUERY "@age" t
  = query_head +:+ "@dataset_name" +:+ query_mid +:+ t +:+ PyStr.nl.
Proof. reflexivity. Qed.

(** Second replacement, up to the text put in for the age. *)
Lemma replace_dataset_name_upto (d rest : string) :
  PyStr.replace (query_head +:+ "@dataset_name" +:+ query_mid +:+ rest)
                "@dataset_name" d
  = query_head +:+ d +:+ query_mid
    +:+ PyStr.replace_from "@dataset_name" d 0 rest.
Proof. reflexivity. Qed.

(** The filled template, for every age text without [@] and every dataset
    name. *)
Lemma fill_template_shape (t d : string) :
  PyStr.has_char "@" t = false →
  fill_template t d = query_head +:+ d +:+ query_mid +:+ t +:+ PyStr.nl.
Proof.
  intros Ht. unfold fill_template.
  rewrite replace_age, replace_dataset_name_upto.
  rewrite replace_from_clean; [done |].
  rewrite has_char_append, Ht. done.
Qed.

Lemma template_query_shape (a : Z) (d : string) :
  template_query a d
  = query_head +:+ d +:+ query_mid +:+ PyStr.str a +:+ PyStr.nl.
Proof. apply fill_template_shape, str_no_at. Qed.

(** ** The generated SQL text *)

(** C1. For every integer age threshold [a] and every dataset name [d], the
    filled template contains the text [age <= ] followed by the decimal
    digits of [a], and contains the table reference [d] followed by
    [.census]. *)
Theorem template_query_contains (a : Z) (d : string) :
  PyStr.contains ("age <= " +:+ PyStr.str a) (template_query a d) = true
  ∧ PyStr.contains (d +:+ ".census") (template_query a d) = true.
Proof.
  rewrite template_query_shape. split.
  - replace (query_head +:+ d +:+ query_mid +:+ PyStr.str a +:+ PyStr.nl)
      with ((query_head +:+ d +:+ ".census" +:+ PyStr.nl +:+ "    WHERE"
             +:+ PyStr.nl +:+ "        ")
            +:+ ("age <= " +:+ PyStr.str a) +:+ PyStr.nl).
    + apply contains_middle.
    + rewrite !append_assoc. reflexivity.
  - replace (query_head +:+ d +:+ query_mid +:+ PyStr.str a +:+ PyStr.nl)
      with (query_head +:+ (d +:+ ".census")
            +:+ (PyStr.nl +:+ "    WHERE" +:+ PyStr.nl +:+ "        age <= "
                 +:+ PyStr.str a +:+ PyStr.nl)).
    + apply contains_middle.
    + rewrite !append_assoc. reflexivity.
Qed.

(** C3. For [age=100] and [dataset_name='sample_dataset'] the output of
    cell 15 is the template with [@age] turned into [100] and
    [@dataset_name] into [sample_dataset]: the text around the two tokens is
    the template's own, unchanged. *)
Theorem sql_is_filled_template :
  SOURCE_QUERY
  = query_head +:+ "@dataset_name" +:+ query_mid +:+ "@age" +:+ PyStr.nl
  ∧ sql
    = query_head +:+ "sample_dataset" +:+ query_mid +:+ "100" +:+ PyStr.nl
  ∧ sql = template_query 100 "sample_dataset"
  ∧ sql
    = PyStr.lines_nl
        [ "";
          "    SELECT ";
          "        age,";
          "        workclass,";
          "        fnlwgt,";
          "        education,";
          "        education_num,";
          "        marital_status,";
          "        occupation,";
          "        relationship,";
          "        race,";
          "        gender,";
          "        capital_gain,";
          "        capital_loss,";
          "        hours_per_week,";
          "        native_country,";
          "        CASE WHEN income_bracket = ' <=50K' THEN 0 ELSE 1 END AS income_bracket";
          "    FROM ";
          "        sample_dataset.census";
          "    WHERE";
          "        age <= 100"
        ]%string.
Proof. repeat split; vm_compute; reflexivity. Qed.

(** ** The query behind the text *)

(** The syntax tree printed with the two tokens in place is the template,
    character for character. *)
Lemma render_template :
  SQL.render_text SOURCE_SELECT "@dataset_name.census" "@age" = SOURCE_QUERY.
Proof. reflexivity. Qed.

(** The filled template is the printed query, for every threshold and every
    dataset name. *)
Lemma render_source_query (a : Z) (d : string) :
  SQL.render (source_query a d) = template_query a d.
Proof.
  rewrite template_query_shape.
  transitivity
    (query_head +:+ (d +:+ ".census")
     +:+ (PyStr.nl +:+ "    WHERE" +:+ PyStr.nl +:+ "        age <= "
          +:+ PyStr.str a +:+ PyStr.nl)).
  - reflexivity.
  - rewrite append_assoc. reflexivity.
Qed.

(** [sql] of cell 15 is the printed query behind [df]. *)
Lemma sql_is_rendered_query : sql = SQL.render (source_query 100 "sample_dataset").
Proof. reflexivity. Qed.

Lemma SELECTED_COLUMNS_length : length SELECTED_COLUMNS = 15%nat.
Proof. reflexivity. Qed.

(** The CASE entry has two outcomes. *)
Lemma recode_label_cases (v : SQL.value) :
  recode_label v = SQL.VInt 0 ∨ recode_label v = SQL.VInt 1.
Proof.
  unfold recode_label, income_bracket_case. cbn [SQL.eval_item].
  destruct (SQL.equals_literal v " <=50K"); [by left | by right].
Qed.

Lemma equals_literal_spec (v : SQL.value) (lit : string) :
  SQL.equals_literal v lit = true ↔ v = SQL.VStr lit.
Proof.
  destruct v as [|n|s]; cbn [SQL.equals_literal]; [done | done |].
  rewrite String.eqb_eq. split; [by intros -> | by intros [= ->]].
Qed.

(** C2. For every integer age threshold [a] and every dataset name [d], the
    generated SQL is the query whose SELECT list yields exactly the fifteen
    fixed columns, in order, [income_bracket] last; and whatever the source
    row, the CASE entry puts 0 or 1 there and nothing else. *)
Theorem generated_sql_select_list (a : Z) (d : string) :
  template_query a d = SQL.render (source_query a d)
  ∧ map SQL.output_name (SQL.select_list (source_query a d)) = SELECTED_COLUMNS
  ∧ length (SQL.select_list (source_query a d)) = 15%nat
  ∧ ∀ r : SQL.row, ∃ (cells : list SQL.value) (label : Z),
      map (SQL.eval_item r) (SQL.select_list (source_query a d))
      = cells ++ [SQL.VInt label]
      ∧ length cells = 14%nat
      ∧ (label = 0 ∨ label = 1).
Proof.
  split; [by rewrite render_source_query |].
  split; [reflexivity |]. split; [reflexivity |].
  intros r.
  exists (map (SQL.eval_item r) (take 14 SOURCE_SELECT)).
  destruct (recode_label_cases (r "income_bracket"%string)) as [E|E].
  - exists 0. split; [| split; [reflexivity | by left]].
    cbn [source_query SQL.select_list SOURCE_SELECT map take app].
    do 15 f_equal. exact E.
  - exists 1. split; [| split; [reflexivity | by right]].
    cbn [source_query SQL.select_list SOURCE_SELECT map take app].
    do 15 f_equal. exact E.
Qed.

(** C8. The label recode gives 0 exactly for the string [ <=50K] with its
    leading blank; every other cell, the unpadded [<=50K] among them, gives
    1.  The recode is the last entry of the query's SELECT list, applied to
    the row's [income_bracket]. *)
Theorem label_recode_leading_blank (v : SQL.value) :
  (recode_label v = SQL.VInt 0 ↔ v = SQL.VStr " <=50K")
  ∧ (v ≠ SQL.VStr " <=50K" → recode_label v = SQL.VInt 1)
  ∧ recode_label (SQL.VStr "<=50K") = SQL.VInt 1
  ∧ recode_label (SQL.VStr " <=50K") = SQL.VInt 0
  ∧ (∀ (a : Z) (d : string) (r : SQL.row),
       last (map (SQL.eval_item r) (SQL.select_list (source_query a d)))
       = Some (recode_label (r "income_bracket"%string))).
Proof.
  assert (H : recode_label v = SQL.VInt 0 ↔ v = SQL.VStr " <=50K").
  { unfold recode_label, income_bracket_case. cbn [SQL.eval_item].
    rewrite <- equals_literal_spec.
    destruct (SQL.equals_literal v " <=50K"); split; done. }
  split; [exact H |]. split.
  - intros Hv. destruct (recode_label_cases v) as [E|E]; [| done].
    by apply H in E.
  - repeat split.
Qed.

(** ** The CSV file *)

Lemma zip_with_record_lengths (f : SQL.value → string) (n : nat)
    (idx : list Z) (rows : list (list SQL.value)) :
  Forall (λ r, length r = n) rows →
  Forall (λ fields, length fields = n) (zip_with (λ _ r, map f r) idx rows).
Proof.
  intros H. revert idx.
  induction H as [|r rows Hr _ IH]; intros [|i idx]; cbn [zip_with]; try done.
  constructor; [by rewrite length_map | apply IH].
Qed.

Lemma run_row_lengths (q : SQL.query) (table : list SQL.row) :
  Forall (λ r, length r = length (SQL.select_list q)) (SQL.run q table).
Proof.
  unfold SQL.run. apply Forall_forall. intros r Hr.
  apply list_elem_of_fmap in Hr as (src & -> & _). by rewrite length_map.
Qed.

Lemma count_char_append (c : ascii) (a b : string) :
  PyStr.count_char c (a +:+ b)
  = (PyStr.count_char c a + PyStr.count_char c b)%nat.
Proof. induction a as [|x a IH]; cbn; [done |]. rewrite IH. lia. Qed.

(** A line whose fields have no comma of their own has one comma less than
    it has fields. *)
Lemma csv_line_commas (fields : list string) :
  Forall (λ f, PyStr.count_char "," f = 0%nat) fields →
  PyStr.count_char "," (Pandas.csv_line fields) = (length fields - 1)%nat.
Proof.
  unfold Pandas.csv_line.
  induction 1 as [|f fields Hf Hfields IH]; [done |].
  destruct fields as [|g fields].
  - cbn [String.concat length]. rewrite Hf. lia.
  - change (String.concat "," (f :: g :: fields))
      with (f +:+ "," +:+ String.concat "," (g :: fields)).
    rewrite !count_char_append, Hf, IH. cbn. lia.
Qed.

(** C9. The file written by [df.to_csv(TRAIN_DATA_FILE, index=False)], for
    the dataframe of the query that [sql] spells out, has a header of
    exactly the fifteen selected column names, with no row-label column in
    front, and every record after it has exactly fifteen fields, one record
    per row the query returns; a record whose fields have no comma inside is
    a line with fourteen commas. *)
Theorem train_csv_fifteen_fields
    (cell_text : SQL.value → string) (census : list SQL.row) :
  ∃ records : list (list string),
    train_csv cell_text census = SELECTED_COLUMNS :: records
    ∧ sql = SQL.render (source_query 100 "sample_dataset")
    ∧ Pandas.csv_line SELECTED_COLUMNS
      = "age,workclass,fnlwgt,education,education_num,marital_status,occupation,relationship,race,gender,capital_gain,capital_loss,hours_per_week,native_country,income_bracket"%string
    ∧ Forall (λ fields, length fields = 15%nat) records
    ∧ length records = length (SQL.run (source_query 100 "sample_dataset") census)
    ∧ Forall (λ fields,
                Forall (λ f, PyStr.count_char "," f = 0%nat) fields →
                PyStr.count_char "," (Pandas.csv_line fields) = 14%nat)
             records.
Proof.
  assert (H15 : Forall (λ fields : list string, length fields = 15%nat)
                  (zip_with (λ (_ : Z) r, map cell_text r)
                     (Pandas.index (df census)) (Pandas.data (df census)))).
  { apply zip_with_record_lengths.
    apply (run_row_lengths (source_query 100 "sample_dataset")). }
  eexists. split; [reflexivity |]. split; [reflexivity |].
  split; [reflexivity |]. split; [exact H15 |]. split.
  - cbn [df Pandas.to_dataframe Pandas.index Pandas.data].
    rewrite length_zip_with, length_map, length_seq. lia.
  - eapply Forall_impl; [exact H15 |].
    intros fields Hlen Hclean. cbv beta in Hlen.
    rewrite (csv_line_commas fields Hclean), Hlen. done.
Qed.

(** With the default [index=True] the file would have sixteen fields a
    line, the first one the row label. *)
Lemma to_csv_with_index_header (cell_text : SQL.value → string)
    (census : list SQL.row) :
  head (Pandas.to_csv cell_text (df census) true)
  = Some (""%string :: SELECTED_COLUMNS).
Proof. reflexivity. Qed.

(** ** The schema edits *)

Section SchemaFacts.

Implicit Types (s : Tfdv.Schema) (n : string) (i j : nat).

(** An edit that keeps a field of every entry keeps the list of that
    field. *)
Lemma fmap_alter_kept {A B : Type} (proj : A → B) (g : A → A) (i : nat)
    (l : list A) :
  (∀ x, proj (g x) = proj x) → proj <$> alter g i l = proj <$> l.
Proof.
  intros Hg. revert i. induction l as [|x l IH]; intros [|i]; cbn; try done.
  - by rewrite Hg.
  - by rewrite IH.
Qed.

(** Where a search by a field succeeds depends on the list of that
    field only. *)
Lemma list_find_index_fmap {A B : Type} (proj : A → B) (P : B → Prop)
    `{!∀ y, Decision (P y)} (l : list A) :
  fst <$> list_find (P ∘ proj) l = fst <$> list_find P (proj <$> l).
Proof. rewrite list_find_fmap. by destruct (list_find _ l) as [[k x]|]. Qed.

(** [get_feature] reads the names only. *)
Lemma get_feature_by_names s n :
  Tfdv.get_feature s n
  = match fst <$> list_find (λ x, x = n) (Tfdv.name <$> Tfdv.feature s) with
    | Some i => Ok i
    | None => Raise ValueError
    end.
Proof.
  rewrite <- list_find_index_fmap. unfold Tfdv.get_feature, compose.
  by destruct (list_find _ _) as [[i f]|].
Qed.

Lemma get_feature_same_names s s' n :
  Tfdv.name <$> Tfdv.feature s = Tfdv.name <$> Tfdv.feature s' →
  Tfdv.get_feature s n = Tfdv.get_feature s' n.
Proof. intros E. by rewrite !get_feature_by_names, E. Qed.

(** A feature found is there, under the name asked for. *)
Lemma get_feature_found s n i :
  Tfdv.get_feature s n = Ok i →
  ∃ f, Tfdv.feature s !! i = Some f ∧ Tfdv.name f = n.
Proof.
  unfold Tfdv.get_feature.
  destruct (list_find _ _) as [[k f]|] eqn:E; [| done].
  intros [= ->]. apply list_find_Some in E as (Hf & Hn & _). eauto.
Qed.

(** The field of one entry after an edit that keeps the field. *)
Lemma lookup_alter_kept {A B : Type} (proj : A → B) (g : A → A) (i j : nat)
    (l : list A) :
  (∀ x, proj (g x) = proj x) →
  proj <$> alter g i l !! j = proj <$> l !! j.
Proof.
  intros Hg. rewrite list_lookup_alter. case_decide as E; [| done].
  subst j. destruct (l !! i); cbn; [by rewrite Hg | done].
Qed.

(** [get_domain] reads the names, the domain kinds and the domain names. *)
Lemma get_domain_same_shape s s' n :
  Tfdv.name <$> Tfdv.feature s = Tfdv.name <$> Tfdv.feature s' →
  Tfdv.domain_info <$> Tfdv.feature s = Tfdv.domain_info <$> Tfdv.feature s' →
  Tfdv.domain_name <$> Tfdv.string_domain s
  = Tfdv.domain_name <$> Tfdv.string_domain s' →
  Tfdv.get_domain s n = Tfdv.get_domain s' n.
Proof.
  intros En Ed Es. unfold Tfdv.get_domain.
  rewrite (get_feature_same_names s s' n En).
  destruct (Tfdv.get_feature s' n) as [i|e]; cbn; [| done].
  assert (Ei : Tfdv.domain_info <$> Tfdv.feature s !! i
               = Tfdv.domain_info <$> Tfdv.feature s' !! i).
  { by rewrite <- !list_lookup_fmap, Ed. }
  rewrite Ei. destruct (Tfdv.domain_info <$> Tfdv.feature s' !! i) as [[|d| |]|];
    try done.
  pose proof (list_find_index_fmap Tfdv.domain_name (λ x, x = d)
                (Tfdv.string_domain s)) as H1.
  pose proof (list_find_index_fmap Tfdv.domain_name (λ x, x = d)
                (Tfdv.string_domain s')) as H2.
  rewrite Es, <- H2 in H1. unfold compose in H1.
  destruct (list_find _ (Tfdv.string_domain s)) as [[? ?]|],
           (list_find _ (Tfdv.string_domain s')) as [[? ?]|];
    cbn in H1; congruence.
Qed.

Lemma domain_at_same_shape s s' (r : Tfdv.domain_ref) :
  Tfdv.domain_info <$> Tfdv.feature s = Tfdv.domain_info <$> Tfdv.feature s' →
  Tfdv.string_domain s = Tfdv.string_domain s' →
  Tfdv.domain_at s r = Tfdv.domain_at s' r.
Proof.
  intros Ed Es. destruct r as [k|i]; cbn [Tfdv.domain_at]; [by rewrite Es |].
  by rewrite <- !list_lookup_fmap, Ed.
Qed.

(** Sequencing gives a value only when both parts do. *)
Lemma bind_Ok {A B : Type} (r : result A) (k : A → result B) (b : B) :
  r ≫= k = Ok b ↔ ∃ a, r = Ok a ∧ k a = Ok b.
Proof.
  destruct r as [a|e]; cbn; split.
  - eauto.
  - by intros (a' & [= <-] & H).
  - done.
  - by intros (a' & [=] & _).
Qed.

(** A domain reference names the feature it was found through, and that
    feature has a domain of its own. *)
Lemma get_domain_in_feature s n i :
  Tfdv.get_domain s n = Ok (Tfdv.InFeature i) →
  Tfdv.get_feature s n = Ok i.
Proof.
  unfold Tfdv.get_domain. intros H.
  apply bind_Ok in H as (i' & Hi & H). rewrite Hi. f_equal.
  destruct (Tfdv.domain_info <$> Tfdv.feature s !! i') as [[|d| |]|];
    try done; try congruence.
  by destruct (list_find _ _) as [[? ?]|].
Qed.

(** What [r.value.append(v)] does to the schema: the domain behind [r]
    gets [v] at the end of its values; names, constraints and
    environments stay. *)
Lemma domain_value_append_Ok (r : Tfdv.domain_ref) (v : string) s s2 :
  Tfdv.domain_value_append r v s = Ok s2 →
  Tfdv.name <$> Tfdv.feature s2 = Tfdv.name <$> Tfdv.feature s
  ∧ Tfdv.distribution_constraints <$> Tfdv.feature s2
    = Tfdv.distribution_constraints <$> Tfdv.feature s
  ∧ Tfdv.not_in_environment <$> Tfdv.feature s2
    = Tfdv.not_in_environment <$> Tfdv.feature s
  ∧ Tfdv.default_environment s2 = Tfdv.default_environment s
  ∧ Tfdv.domain_at s2 r = Tfdv.append_value v <$> Tfdv.domain_at s r.
Proof.
  destruct r as [k|i]; cbn [Tfdv.domain_value_append].
  - intros [= <-]. cbn. repeat split; try done.
    apply list_lookup_alter_eq.
  - destruct (Tfdv.domain_at s (Tfdv.InFeature i)) as [d|] eqn:Hd; [| done].
    intros [= <-]. cbn [Tfdv.update_feature Tfdv.feature Tfdv.default_environment].
    repeat split; try (by apply fmap_alter_kept).
    cbn [Tfdv.domain_at Tfdv.update_feature Tfdv.feature] in *.
    rewrite list_lookup_alter_eq.
    destruct (Tfdv.feature s !! i) as [f|]; cbn in *; done.
Qed.

(** The reference found before [r.value.append(v)] is found after it. *)
Lemma domain_value_append_get_domain (r : Tfdv.domain_ref) (v n : string) s s2 :
  Tfdv.get_domain s n = Ok r →
  Tfdv.domain_value_append r v s = Ok s2 →
  Tfdv.get_domain s2 n = Ok r.
Proof.
  intros Hr Hs2. destruct r as [k|i]; cbn [Tfdv.domain_value_append] in Hs2.
  - injection Hs2 as <-. rewrite <- Hr. apply get_domain_same_shape; cbn; try done.
    by apply fmap_alter_kept.
  - destruct (Tfdv.domain_at s (Tfdv.InFeature i)) as [d|] eqn:Hd; [| done].
    injection Hs2 as <-.
    apply get_domain_in_feature in Hr as Hi.
    unfold Tfdv.get_domain.
    rewrite (get_feature_same_names _ s n); [| by apply fmap_alter_kept].
    rewrite Hi. cbn [mbind result_bind Tfdv.update_feature Tfdv.feature].
    rewrite list_lookup_alter_eq.
    cbn [Tfdv.domain_at] in Hd.
    destruct (Tfdv.feature s !! i) as [f|]; cbn in *; done.
Qed.

End SchemaFacts.

(** The domain an append went to was there. *)
Lemma domain_value_append_target (r : Tfdv.domain_ref) (v n : string)
    (s s2 : Tfdv.Schema) :
  Tfdv.get_domain s n = Ok r →
  Tfdv.domain_value_append r v s = Ok s2 →
  is_Some (Tfdv.domain_at s r).
Proof.
  intros Hr Hs2. destruct r as [k|i].
  - unfold Tfdv.get_domain in Hr. apply bind_Ok in Hr as (i & _ & Hr).
    destruct (Tfdv.domain_info <$> Tfdv.feature s !! i) as [[|d|d|]|];
      try done.
    destruct (list_find _ _) as [[k' sd]|] eqn:Hfind; [| done].
    injection Hr as <-. apply list_find_Some in Hfind as (Hsd & _).
    cbn [Tfdv.domain_at]. eauto.
  - cbn [Tfdv.domain_value_append] in Hs2.
    destruct (Tfdv.domain_at s (Tfdv.InFeature i)); [eauto | done].
Qed.

(** What cell 29 leaves behind, when it runs through. *)
Lemma alter_schema_Ok (schema altered : Tfdv.Schema) :
  alter_schema schema = Ok altered →
  (∃ i f, Tfdv.get_feature altered "occupation" = Ok i
          ∧ Tfdv.feature_at altered i = Some f
          ∧ Tfdv.read_min_domain_mass f = 0.9%float)
  ∧ (∃ r d, Tfdv.get_domain altered "native_country" = Ok r
            ∧ Tfdv.domain_at altered r = Some d
            ∧ "Egypt"%string ∈ Tfdv.value d)
  ∧ ("TRAINING"%string ∈ Tfdv.default_environment altered
     ∧ "EVALUATION"%string ∈ Tfdv.default_environment altered
     ∧ "SERVING"%string ∈ Tfdv.default_environment altered)
  ∧ (∃ j f, Tfdv.get_feature altered TARGET_FEATURE_NAME = Ok j
            ∧ Tfdv.feature_at altered j = Some f
            ∧ "SERVING"%string ∈ Tfdv.not_in_environment f).
Proof.
  unfold alter_schema. intros H. cbv zeta in H.
  apply bind_Ok in H as (occ & Hocc & H).
  set (s1 := Tfdv.update_feature occ (Tfdv.set_min_domain_mass 0.9) schema) in *.
  apply bind_Ok in H as (r & Hr & H).
  apply bind_Ok in H as (s2 & Hs2 & H).
  set (s3 := register_environments s2) in *.
  apply bind_Ok in H as (tgt & Htgt & H).
  injection H as <-.
  set (s4 := Tfdv.update_feature tgt (Tfdv.append_not_in_environment "SERVING") s3).
  destruct (domain_value_append_Ok _ _ _ _ Hs2) as (N2 & C2 & _ & E2 & D2).
  assert (N1 : Tfdv.name <$> Tfdv.feature s1 = Tfdv.name <$> Tfdv.feature schema)
    by (by apply fmap_alter_kept).
  assert (N4 : Tfdv.name <$> Tfdv.feature s4 = Tfdv.name <$> Tfdv.feature s3)
    by (by apply fmap_alter_kept).
  change (Tfdv.feature s3) with (Tfdv.feature s2) in N4.
  repeat split.
  - (* occupation *)
    destruct (get_feature_found _ _ _ Hocc) as (f0 & Hf0 & _).
    assert (Hc : Tfdv.distribution_constraints <$> Tfdv.feature s4 !! occ
                 = Some {| Tfdv.min_domain_mass := Some 0.9%float |}).
    { unfold s4. cbn [Tfdv.update_feature Tfdv.feature].
      rewrite lookup_alter_kept by done.
      change (Tfdv.feature s3) with (Tfdv.feature s2).
      rewrite <- list_lookup_fmap, C2, list_lookup_fmap.
      unfold s1. cbn [Tfdv.update_feature Tfdv.feature].
      rewrite list_lookup_alter_eq, Hf0. done. }
    apply fmap_Some in Hc as (f & Hf & Hc).
    exists occ, f. split; [| split; [exact Hf |]].
    + rewrite <- Hocc. apply get_feature_same_names. congruence.
    + unfold Tfdv.read_min_domain_mass. by rewrite <- Hc.
  - (* native_country *)
    pose proof (domain_value_append_get_domain _ _ _ _ _ Hr Hs2) as Hr2.
    assert (Hr4 : Tfdv.get_domain s4 "native_country" = Ok r).
    { rewrite <- Hr2. apply get_domain_same_shape; [exact N4 | | done].
      by apply fmap_alter_kept. }
    assert (Hd4 : Tfdv.domain_at s4 r = Tfdv.domain_at s2 r).
    { apply domain_at_same_shape; [| done]. by apply fmap_alter_kept. }
    destruct (domain_value_append_target _ _ _ _ _ Hr Hs2) as [d Hd].
    exists r, (Tfdv.append_value "Egypt" d). split; [exact Hr4 | split].
    + by rewrite Hd4, D2, Hd.
    + cbn [Tfdv.append_value Tfdv.value]. set_solver.
  - cbn. set_solver.
  - cbn. set_solver.
  - cbn. set_solver.
  - (* income_bracket *)
    destruct (get_feature_found _ _ _ Htgt) as (f & Hf & _).
    exists tgt, (Tfdv.append_not_in_environment "SERVING" f). repeat split.
    + rewrite <- Htgt. by apply get_feature_same_names.
    + unfold Tfdv.feature_at, s4. cbn [Tfdv.update_feature Tfdv.feature].
      by rewrite list_lookup_alter_eq, Hf.
    + cbn. set_solver.
Qed.

(** Cell 29 runs through on every schema that has the two features it
    names and a string domain for [native_country]. *)
Lemma alter_schema_runs (schema : Tfdv.Schema) (r : Tfdv.domain_ref) :
  (∃ i, Tfdv.get_feature schema "occupation" = Ok i) →
  Tfdv.get_domain schema "native_country" = Ok r →
  is_Some (Tfdv.domain_at schema r) →
  (∃ j, Tfdv.get_feature schema TARGET_FEATURE_NAME = Ok j) →
  ∃ altered, alter_schema schema = Ok altered.
Proof.
  intros [occ Hocc] Hr [d Hd] [tgt Htgt]. unfold alter_schema. cbv zeta.
  rewrite Hocc. cbn [mbind result_bind].
  set (s1 := Tfdv.update_feature occ (Tfdv.set_min_domain_mass 0.9) schema).
  assert (Hr1 : Tfdv.get_domain s1 "native_country" = Ok r).
  { rewrite <- Hr. apply get_domain_same_shape; try done; by apply fmap_alter_kept. }
  assert (Hd1 : Tfdv.domain_at s1 r = Some d).
  { rewrite <- Hd. apply domain_at_same_shape; [| done]. by apply fmap_alter_kept. }
  rewrite Hr1. cbn [mbind result_bind].
  assert (Hs2 : ∃ s2, Tfdv.domain_value_append r "Egypt" s1 = Ok s2).
  { destruct r as [k|i]; cbn [Tfdv.domain_value_append]; [eauto |].
    rewrite Hd1. eauto. }
  destruct Hs2 as [s2 Hs2]. rewrite Hs2. cbn [mbind result_bind].
  destruct (domain_value_append_Ok _ _ _ _ Hs2) as (N2 & _).
  assert (Ht : Tfdv.get_feature (register_environments s2) TARGET_FEATURE_NAME = Ok tgt).
  { rewrite <- Htgt. apply get_feature_same_names.
    change (Tfdv.feature (register_environments s2)) with (Tfdv.feature s2).
    rewrite N2. by apply fmap_alter_kept. }
  rewrite Ht. cbn [mbind result_bind]. eauto.
Qed.

(** C6. On a schema that has the features [occupation] and
    [income_bracket] and a string domain for [native_country], as an
    inferred schema of the extracted data has, cell 29 runs through, and
    afterwards: [occupation] has [min_domain_mass] 0.9; the domain of
    [native_country] has [Egypt] among its values; [default_environment] has
    [TRAINING], [EVALUATION] and [SERVING]; and [income_bracket] has
    [SERVING] in [not_in_environment]. *)
Theorem schema_mutation_postconditions (schema : Tfdv.Schema) (r : Tfdv.domain_ref) :
  (∃ i, Tfdv.get_feature schema "occupation" = Ok i) →
  Tfdv.get_domain schema "native_country" = Ok r →
  is_Some (Tfdv.domain_at schema r) →
  (∃ j, Tfdv.get_feature schema TARGET_FEATURE_NAME = Ok j) →
  ∃ altered,
    alter_schema schema = Ok altered
    ∧ (∃ i f, Tfdv.get_feature altered "occupation" = Ok i
              ∧ Tfdv.feature_at altered i = Some f
              ∧ Tfdv.read_min_domain_mass f = 0.9%float)
    ∧ (∃ r' d, Tfdv.get_domain altered "native_country" = Ok r'
               ∧ Tfdv.domain_at altered r' = Some d
               ∧ "Egypt"%string ∈ Tfdv.value d)
    ∧ ("TRAINING"%string ∈ Tfdv.default_environment altered
       ∧ "EVALUATION"%string ∈ Tfdv.default_environment altered
       ∧ "SERVING"%string ∈ Tfdv.default_environment altered)
    ∧ (∃ j f, Tfdv.get_feature altered TARGET_FEATURE_NAME = Ok j
              ∧ Tfdv.feature_at altered j = Some f
              ∧ "SERVING"%string ∈ Tfdv.not_in_environment f).
Proof.
  intros Hocc Hr Hd Htgt.
  destruct (alter_schema_runs schema r Hocc Hr Hd Htgt) as [altered H].
  exists altered. split; [exact H |]. exact (alter_schema_Ok schema altered H).
Qed.

Lemma schema_mutation_postconditions_witness :
  ∃ altered,
    alter_schema inferred_example = Ok altered
    ∧ (∃ i f, Tfdv.get_feature altered "occupation" = Ok i
              ∧ Tfdv.feature_at altered i = Some f
              ∧ Tfdv.read_min_domain_mass f = 0.9%float)
    ∧ (∃ r' d, Tfdv.get_domain altered "native_country" = Ok r'
               ∧ Tfdv.domain_at altered r' = Some d
               ∧ "Egypt"%string ∈ Tfdv.value d)
    ∧ ("TRAINING"%string ∈ Tfdv.default_environment altered
       ∧ "EVALUATION"%string ∈ Tfdv.default_environment altered
       ∧ "SERVING"%string ∈ Tfdv.default_environment altered)
    ∧ (∃ j f, Tfdv.get_feature altered TARGET_FEATURE_NAME = Ok j
              ∧ Tfdv.feature_at altered j = Some f
              ∧ "SERVING"%string ∈ Tfdv.not_in_environment f).
Proof.
  apply (schema_mutation_postconditions inferred_example (Tfdv.InSchema 1)).
  - exists 0%nat. reflexivity.
  - reflexivity.
  - eexists. reflexivity.
  - exists 2%nat. reflexivity.
Defined.

(** The three appends, as lists. *)
Lemma register_environments_appends (schema : Tfdv.Schema) :
  Tfdv.default_environment (register_environments schema)
  = Tfdv.default_environment schema ++ ENVIRONMENTS.
Proof. cbn. by rewrite <- !app_assoc. Qed.

Lemma occurrences_app (x : string) (l k : list string) :
  occurrences x (l ++ k) = (occurrences x l + occurrences x k)%nat.
Proof. unfold occurrences. by rewrite filter_app, length_app. Qed.

Lemma occurrences_elem_of (x : string) (l : list string) :
  x ∈ l ↔ (1 ≤ occurrences x l)%nat.
Proof.
  unfold occurrences. induction l as [|y l IH].
  - cbn. split; [by intros ?%elem_of_nil | lia].
  - rewrite elem_of_cons, IH. destruct (decide (y = x)) as [->|Hne].
    + rewrite filter_cons_True by done. cbn. split; [lia | auto].
    + rewrite filter_cons_False by done. split; [| auto].
      intros [->|]; [done | lia].
Qed.

Lemma occurrences_NoDup (x : string) (l : list string) :
  NoDup l → (occurrences x l ≤ 1)%nat.
Proof.
  induction 1 as [|y l Hy _ IH]; [cbn; lia |].
  unfold occurrences in *. destruct (decide (y = x)) as [->|Hne].
  - rewrite filter_cons_True by done. cbn.
    apply (not_iff_compat (occurrences_elem_of x l)) in Hy.
    unfold occurrences in Hy. lia.
  - by rewrite filter_cons_False.
Qed.

(** C7. The appends to [default_environment] are plain list appends: on a
    schema whose list already has one of the three names, [SERVING] say,
    registering the environments again adds the name once more.  It then
    occurs at least twice, and exactly twice when it occurred once; the list
    has a duplicate. *)
Theorem register_environments_duplicates (schema : Tfdv.Schema) (e : string) :
  e ∈ ENVIRONMENTS →
  e ∈ Tfdv.default_environment schema →
  Tfdv.default_environment (register_environments schema)
  = Tfdv.default_environment schema ++ ENVIRONMENTS
  ∧ occurrences e (Tfdv.default_environment (register_environments schema))
    = S (occurrences e (Tfdv.default_environment schema))
  ∧ (2 ≤ occurrences e (Tfdv.default_environment (register_environments schema)))%nat
  ∧ (occurrences e (Tfdv.default_environment schema) = 1%nat →
     occurrences e (Tfdv.default_environment (register_environments schema)) = 2%nat)
  ∧ ¬ NoDup (Tfdv.default_environment (register_environments schema)).
Proof.
  intros He Hin.
  assert (Hone : occurrences e ENVIRONMENTS = 1%nat).
  { unfold ENVIRONMENTS in He. rewrite !elem_of_cons in He.
    destruct He as [->|[->|[->|He]]]; [done | done | done |].
    by apply elem_of_nil in He. }
  assert (Hcount : occurrences e (Tfdv.default_environment (register_environments schema))
                   = S (occurrences e (Tfdv.default_environment schema))).
  { rewrite register_environments_appends, occurrences_app, Hone. lia. }
  apply occurrences_elem_of in Hin.
  split; [apply register_environments_appends |].
  split; [exact Hcount |]. split; [lia |]. split; [lia |].
  intros Hnd. apply (occurrences_NoDup e) in Hnd. lia.
Qed.

Lemma register_environments_duplicates_witness :
  occurrences "SERVING"
    (Tfdv.default_environment
       (register_environments (register_environments inferred_example)))
  = 2%nat.
Proof.
  pose proof (register_environments_duplicates
                (register_environments inferred_example) "SERVING") as H.
  apply H.
  - unfold ENVIRONMENTS. apply list_elem_of_In. simpl. tauto.
  - apply list_elem_of_In. simpl. tauto.
  - reflexivity.
Defined.

(** ** The workspace directories *)





Lemma at_path_DATA_DIR (m : gmap (list string) Gfile.entry) :
  Gfile.at_path m DATA_DIR = m !! DATA_DIR.
Proof. reflexivity. Qed.

(** A name in the working directory sits where it says. *)
Lemma locate_top (m : gmap (list string) Gfile.entry) (c : string) :
  Gfile.locate m [c] = inr [c].
Proof. reflexivity. Qed.

(** What a name in the working directory leads to, when it is no link. *)
Lemma stat_top (m : gmap (list string) Gfile.entry) (c : string) :
  (∀ e, m !! [c] = Some e → Gfile.is_link e = false) →
  Gfile.stat m [c]
  = match m !! [c] with
    | Some e => inr e
    | None => inl Gfile.ENOENT
    end.
Proof.
  intros Hlink. unfold Gfile.stat, Gfile.realpath, Gfile.SYMLOOP_MAX.
  cbn [Gfile.walk app].
  destruct (m !! [c]) as [[| |t]|] eqn:E; cbn [Gfile.at_path]; try by rewrite ?E.
  by specialize (Hlink _ eq_refl).
Qed.

(** The data directory sits in the workspace root when that is a
    directory. *)
Lemma locate_DATA_DIR (m : gmap (list string) Gfile.entry) :
  m !! WORKSPACE = Some Gfile.Dir → Gfile.locate m DATA_DIR = inr DATA_DIR.
Proof.
  intros H. unfold Gfile.locate, Gfile.realpath, Gfile.SYMLOOP_MAX.
  cbn [DATA_DIR Gfile.path_join WORKSPACE app Gfile.parent removelast Gfile.walk].
  change (m !! ["workspace"%string]) with (m !! WORKSPACE).
  rewrite H. cbn [Gfile.at_path]. change (m !! ["workspace"%string]) with (m !! WORKSPACE).
  by rewrite H.
Qed.




(** One step after another. *)
Lemma io_bind_Ok {A B : Type} (m : Gfile.io A) (k : A → Gfile.io B)
    (w w' : Gfile.world) (a : A) :
  m w = Ok (a, w') → (m ≫= k) w = k a w'.
Proof. intros H. unfold mbind, Gfile.io_bind. by rewrite H. Qed.

Lemma mkdir_fresh (p q : list string) (w : Gfile.world) :
  Gfile.locate (Gfile.files w) p = inr q →
  Gfile.at_path (Gfile.files w) q = None →
  Gfile.mkdir p w
  = Ok (tt, {| Gfile.files := <[q := Gfile.Dir]> (Gfile.files w);
               Gfile.stdout := Gfile.stdout w;
               Gfile.calls := Gfile.calls w ++ [Gfile.Mkdir p] |}).
Proof. intros Hq Hp. unfold Gfile.mkdir. by rewrite Hq, Hp. Qed.

Lemma mkdir_taken (p q : list string) (w : Gfile.world) :
  Gfile.locate (Gfile.files w) p = inr q →
  is_Some (Gfile.at_path (Gfile.files w) q) →
  Gfile.mkdir p w
  = Ok (tt, {| Gfile.files := Gfile.files w;
               Gfile.stdout := Gfile.stdout w;
               Gfile.calls := Gfile.calls w ++ [Gfile.Mkdir p] |}).
Proof. intros Hq [e Hp]. unfold Gfile.mkdir. by rewrite Hq, Hp. Qed.

(** The workspace root reported by the existence check, when it is no
    link: there exactly when the name is taken. *)
Lemma exists_WORKSPACE (w : Gfile.world) :
  (∀ e, Gfile.files w !! WORKSPACE = Some e → Gfile.is_link e = false) →
  Gfile.exists_ WORKSPACE w
  = Ok (bool_decide (is_Some (Gfile.files w !! WORKSPACE)),
        Gfile.called (Gfile.Exists WORKSPACE) w).
Proof.
  intros Hlink. unfold Gfile.exists_, WORKSPACE. rewrite stat_top by exact Hlink.
  destruct (Gfile.files w !! ["workspace"%string]) as [e|].
  - by rewrite bool_decide_eq_true_2 by eauto.
  - by rewrite bool_decide_eq_false_2 by (by intros [? ?]).
Qed.




(** The two directories made on a file system [m] in which the name of the
    workspace root is free: the data directory is made unless its name is
    taken. *)
Lemma make_directories (m : gmap (list string) Gfile.entry)
    (out : list string) (log : list Gfile.call) :
  m !! WORKSPACE = None →
  (Gfile.print "Creating new workspace...";;
   Gfile.mkdir WORKSPACE;;
   Gfile.print "Creating data directory...";;
   Gfile.mkdir DATA_DIR)
    {| Gfile.files := m; Gfile.stdout := out; Gfile.calls := log |}
  = Ok (tt,
        {| Gfile.files :=
             match m !! DATA_DIR with
             | Some _ => <[WORKSPACE := Gfile.Dir]> m
             | None => <[DATA_DIR := Gfile.Dir]> (<[WORKSPACE := Gfile.Dir]> m)
             end;
           Gfile.stdout :=
             out ++ ["Creating new workspace..."; "Creating data directory..."]%string;
           Gfile.calls := log ++ [Gfile.Mkdir WORKSPACE; Gfile.Mkdir DATA_DIR] |}).
Proof.
  intros He.
  erewrite io_bind_Ok; [| reflexivity].
  erewrite io_bind_Ok; cycle 1.
  { apply (mkdir_fresh WORKSPACE WORKSPACE); [apply locate_top | exact He]. }
  erewrite io_bind_Ok; [| reflexivity].
  cbn [Gfile.files Gfile.stdout Gfile.calls Gfile.called Gfile.print].
  assert (Hloc : Gfile.locate (<[WORKSPACE := Gfile.Dir]> m) DATA_DIR = inr DATA_DIR)
    by apply locate_DATA_DIR, lookup_insert_eq.
  destruct (m !! DATA_DIR) as [e|] eqn:Hd.
  - rewrite (mkdir_taken DATA_DIR DATA_DIR); cycle 1.
    { exact Hloc. }
    { cbn [Gfile.files]. rewrite at_path_DATA_DIR, lookup_insert_ne by done.
      rewrite Hd. eauto. }
    cbn [Gfile.files Gfile.stdout Gfile.calls].
    by rewrite <- !app_assoc.
  - rewrite (mkdir_fresh DATA_DIR DATA_DIR); cycle 1.
    { exact Hloc. }
    { cbn [Gfile.files]. by rewrite at_path_DATA_DIR, lookup_insert_ne by done. }
    cbn [Gfile.files Gfile.stdout Gfile.calls].
    by rewrite <- !app_assoc.
Qed.



(** The cell when the workspace is not there: nothing is removed. *)
Lemma setup_workspace_absent (w : Gfile.world) :
  Gfile.files w !! WORKSPACE = None →
  setup_workspace w
  = Ok (tt,
        {| Gfile.files :=
             match Gfile.files w !! DATA_DIR with
             | Some _ => <[WORKSPACE := Gfile.Dir]> (Gfile.files w)
             | None =>
                 <[DATA_DIR := Gfile.Dir]>
                   (<[WORKSPACE := Gfile.Dir]> (Gfile.files w))
             end;
           Gfile.stdout :=
             Gfile.stdout w
             ++ ["Creating new workspace..."; "Creating data directory..."]%string;
           Gfile.calls :=
             Gfile.calls w
             ++ [Gfile.Exists WORKSPACE; Gfile.Mkdir WORKSPACE;
                 Gfile.Mkdir DATA_DIR] |}).
Proof.
  intros He. unfold setup_workspace.
  erewrite io_bind_Ok; cycle 1.
  { apply exists_WORKSPACE. intros e E. by rewrite He in E. }
  rewrite bool_decide_eq_false_2 by (rewrite He; by intros [? ?]).
  erewrite io_bind_Ok; [| reflexivity].
  unfold Gfile.called.
  rewrite make_directories by exact He.
  cbn [Gfile.files Gfile.stdout Gfile.calls Gfile.called Gfile.print].
  by rewrite <- !app_assoc.
Qed.











(** ** The edits run twice *)

Lemma alter_schema_default_environment (schema altered : Tfdv.Schema) :
  alter_schema schema = Ok altered →
  Tfdv.default_environment altered
  = Tfdv.default_environment schema ++ ENVIRONMENTS.
Proof.
  unfold alter_schema. intros H. cbv zeta in H.
  apply bind_Ok in H as (occ & _ & H).
  apply bind_Ok in H as (r & _ & H).
  apply bind_Ok in H as (s2 & Hs2 & H).
  apply bind_Ok in H as (tgt & _ & H).
  injection H as <-.
  destruct (domain_value_append_Ok _ _ _ _ Hs2) as (_ & _ & _ & E2 & _).
  cbn [Tfdv.update_feature Tfdv.default_environment].
  by rewrite register_environments_appends, E2.
Qed.

(** Cell 29 run a second time on its own result runs through again and
    appends the three names again. *)
Lemma alter_schema_twice (schema altered : Tfdv.Schema) :
  alter_schema schema = Ok altered →
  ∃ again,
    alter_schema altered = Ok again
    ∧ Tfdv.default_environment again
      = Tfdv.default_environment schema ++ ENVIRONMENTS ++ ENVIRONMENTS.
Proof.
  intros H.
  destruct (alter_schema_Ok schema altered H)
    as ((i & _ & Hocc & _) & (r & d & Hr & Hd & _) & _ & (j & _ & Htgt & _)).
  destruct (alter_schema_runs altered r) as [again Hagain]; eauto.
  exists again. split; [exact Hagain |].
  rewrite (alter_schema_default_environment altered again Hagain).
  rewrite (alter_schema_default_environment schema altered H).
  by rewrite <- app_assoc.
Qed.

(** ** Worked examples *)

Example replace_non_overlapping :
  PyStr.replace "aaa" "aa" "b" = "ba"%string
  ∧ PyStr.replace "abcabc" "bc" "" = "aa"%string
  ∧ PyStr.replace "abc" "" "-" = "-a-b-c-"%string.
Proof. repeat split. Qed.

Example template_query_negative_age :
  PyStr.contains "age <= -5" (template_query (-5) "lab") = true
  ∧ PyStr.contains "lab.census" (template_query (-5) "lab") = true
  ∧ PyStr.contains "@" (template_query (-5) "lab") = false.
Proof. repeat split; vm_compute; reflexivity. Qed.

Example recode_label_examples :
  recode_label (SQL.VStr " <=50K") = SQL.VInt 0
  ∧ recode_label (SQL.VStr " >50K") = SQL.VInt 1
  ∧ recode_label (SQL.VStr "<=50K") = SQL.VInt 1
  ∧ recode_label SQL.VNull = SQL.VInt 1.
Proof. repeat split. Qed.

Example alter_schema_inferred_example :
  ∃ altered,
    alter_schema inferred_example = Ok altered
    ∧ Tfdv.default_environment altered = ENVIRONMENTS
    ∧ Tfdv.value <$> Tfdv.string_domain altered !! 1%nat
      = Some ["Mexico"; "Cambodia"; "United-States"; "Egypt"]%string.
Proof. eexists. repeat split. Qed.

(** A link to a directory inside the workspace stops the removal, as a
    link for a root does. *)
Example setup_workspace_linked_cache :
  ∃ e, setup_workspace (fresh_world linked_cache) = Raise e.
Proof. eexists. vm_compute. reflexivity. Qed.

Example setup_workspace_first_run :
  (Gfile.calls ∘ snd) <$> (match setup_workspace (fresh_world ∅) with
                           | Ok r => Some r
                           | Raise _ => None
                           end)
  = Some [Gfile.Exists WORKSPACE; Gfile.Mkdir WORKSPACE; Gfile.Mkdir DATA_DIR].
Proof. by rewrite setup_workspace_absent. Qed.

(** ** More on the generated SQL text *)

Lemma length_append (a b : string) :
  String.length (a +:+ b) = (String.length a + String.length b)%nat.
Proof. induction a as [|x a IH]; cbn; [done | by rewrite IH]. Qed.

(** A common ending can be struck off. *)
Lemma append_inv_tail (a b t : string) : a +:+ t = b +:+ t → a = b.
Proof.
  revert b. induction a as [|x a IH]; intros [|y b] H; cbn in H.
  - done.
  - apply (f_equal String.length) in H. cbn in H. rewrite length_append in H. lia.
  - apply (f_equal String.length) in H. cbn in H. rewrite length_append in H. lia.
  - injection H as -> H. f_equal. by apply IH.
Qed.

(** A text is cut at the last occurrence of a character in one way only. *)
Lemma split_at_last (c : ascii) (s s' t t' : string) :
  PyStr.has_char c t = false →
  PyStr.has_char c t' = false →
  s +:+ String c t = s' +:+ String c t' →
  s = s' ∧ t = t'.
Proof.
  intros Ht Ht'. revert s'.
  induction s as [|x s IH]; intros [|y s'] H; cbn in H.
  - by injection H.
  - injection H as <- H. rewrite H, has_char_append in Ht. cbn in Ht.
    rewrite Ascii.eqb_refl, orb_true_r in Ht. done.
  - injection H as <- H. rewrite <- H, has_char_append in Ht'. cbn in Ht'.
    rewrite Ascii.eqb_refl, orb_true_r in Ht'. done.
  - injection H as <- H. destruct (IH _ H) as [-> ->]. done.
Qed.

Lemma string_of_uint_no_blank (d : Decimal.uint) :
  PyStr.has_char " " (NilEmpty.string_of_uint d) = false.
Proof. induction d; simpl; done. Qed.

Lemma str_no_blank (n : Z) : PyStr.has_char " " (PyStr.str n) = false.
Proof.
  unfold PyStr.str. destruct (Z.to_int n) as [d|d]; simpl.
  - destruct d; simpl; try done; apply string_of_uint_no_blank.
  - destruct d; simpl; try done; apply string_of_uint_no_blank.
Qed.

(** The digits of an integer read back as that integer. *)
Lemma str_read_back (n : Z) :
  NilZero.int_of_string (PyStr.str n) = Some (Z.to_int n).
Proof.
  unfold PyStr.str. apply NilZero.isi; destruct n as [|p|p]; cbn; try done.
  - intros [= H]. by apply DecimalPos.Unsigned.to_uint_nonnil in H.
  - intros [= H]. by apply DecimalPos.Unsigned.to_uint_nonnil in H.
Qed.

Lemma str_inj (n n' : Z) : PyStr.str n = PyStr.str n' → n = n'.
Proof.
  intros H. apply DecimalZ.to_int_inj.
  pose proof (str_read_back n) as E. rewrite H, str_read_back in E. congruence.
Qed.

(** X1. For every integer age threshold and every dataset name, the filled
    template is the template with the two tokens exchanged for the dataset
    name and the digits of the threshold; the text before, between and
    after the tokens is the template's own. *)
Theorem template_query_only_tokens_change (a : Z) (d : string) :
  SOURCE_QUERY
  = query_head +:+ "@dataset_name" +:+ query_mid +:+ "@age" +:+ PyStr.nl
  ∧ template_query a d
    = query_head +:+ d +:+ query_mid +:+ PyStr.str a +:+ PyStr.nl
  ∧ String.length (template_query a d)
    = (String.length SOURCE_QUERY - 17
       + String.length d + String.length (PyStr.str a))%nat.
Proof.
  split; [reflexivity |]. split; [apply template_query_shape |].
  rewrite template_query_shape, !length_append.
  change (String.length SOURCE_QUERY) with
    (String.length query_head + 13 + String.length query_mid + 4 + 1)%nat.
  cbn [PyStr.nl String.length]. lia.
Qed.

(** X2. The filled template has an [@] left exactly when the dataset name
    has one: a clean dataset name leaves no token behind, and a token
    inside the dataset name, [@age] included, is put in as it is, because
    the age is replaced first. *)
Theorem template_query_tokens_left (a : Z) (d : string) :
  PyStr.has_char "@" (template_query a d) = PyStr.has_char "@" d
  ∧ (PyStr.contains "@age" d = true →
     PyStr.contains "@age" (template_query a d) = true)
  ∧ (PyStr.has_char "@" d = false →
     PyStr.contains "@age" (template_query a d) = false
     ∧ PyStr.contains "@dataset_name" (template_query a d) = false).
Proof.
  assert (Hat : PyStr.has_char "@" (template_query a d) = PyStr.has_char "@" d).
  { rewrite template_query_shape, !has_char_append, str_no_at.
    change (PyStr.has_char "@" query_head) with false.
    change (PyStr.has_char "@" query_mid) with false.
    change (PyStr.has_char "@" PyStr.nl) with false.
    by rewrite !orb_false_r. }
  assert (Hno : ∀ tok s, PyStr.has_char "@" s = false →
                         PyStr.contains (String "@" tok) s = false).
  { intros tok s Hs. destruct (PyStr.contains (String "@" tok) s) eqn:E; [| done].
    apply contains_split in E as (pre & post & ->).
    rewrite has_char_append in Hs. cbn in Hs. by rewrite orb_true_r in Hs. }
  split; [exact Hat |]. split.
  - intros Hd. apply contains_split in Hd as (pre & post & ->).
    rewrite template_query_shape.
    replace (query_head +:+ (pre +:+ "@age" +:+ post) +:+ query_mid
             +:+ PyStr.str a +:+ PyStr.nl)
      with ((query_head +:+ pre) +:+ "@age"
            +:+ (post +:+ query_mid +:+ PyStr.str a +:+ PyStr.nl)).
    + apply contains_middle.
    + rewrite !append_assoc. reflexivity.
  - intros Hd. rewrite <- Hat in Hd. split; by apply Hno.
Qed.

Lemma template_query_tokens_left_witness :
  PyStr.contains "@age" (template_query 7 "my@age") = true.
Proof.
  apply (template_query_tokens_left 7 "my@age"). reflexivity.
Defined.

(** X3. The filled template determines its two arguments: two fillings are
    the same text only for the same threshold and the same dataset name. *)
Theorem template_query_inj (a a' : Z) (d d' : string) :
  template_query a d = template_query a' d' → a = a' ∧ d = d'.
Proof.
  rewrite !template_query_shape. intros H.
  apply (inj (String.append query_head)) in H.
  assert (Hmid : query_mid = (".census" +:+ PyStr.nl +:+ "    WHERE" +:+ PyStr.nl
                              +:+ "        age <=") +:+ String " " "")
    by reflexivity.
  rewrite Hmid in H. set (m := (".census" +:+ PyStr.nl +:+ "    WHERE" +:+ PyStr.nl
                               +:+ "        age <=")%string) in *.
  assert (E : ∀ x s, x +:+ (m +:+ String " " "") +:+ s
                     = (x +:+ m) +:+ String " " s).
  { intros x s. rewrite !append_assoc. reflexivity. }
  rewrite !E in H.
  apply split_at_last in H as [Hd Ha].
  - apply append_inv_tail in Hd, Ha. split; [by apply str_inj | done].
  - rewrite has_char_append, str_no_blank. reflexivity.
  - rewrite has_char_append, str_no_blank. reflexivity.
Qed.

Lemma template_query_inj_witness : 100 = 100 ∧ "sample_dataset"%string = "sample_dataset"%string.
Proof.
  apply (template_query_inj 100 100 "sample_dataset" "sample_dataset").
  reflexivity.
Defined.

(** ** The extracted rows and the class distribution *)

Lemma zip_with_records_Forall (f : SQL.value → string)
    (P : list SQL.value → Prop) (Q : list string → Prop)
    (idx : list Z) (rows : list (list SQL.value)) :
  (∀ r, P r → Q (map f r)) →
  Forall P rows →
  Forall Q (zip_with (λ _ r, map f r) idx rows).
Proof.
  intros HPQ H. revert idx.
  induction H as [|r rows Hr _ IH]; intros [|i idx]; cbn [zip_with]; try done.
  constructor; [by apply HPQ | apply IH].
Qed.

(** A row passes the age filter only with an integer age within the
    bound. *)
Lemma where_holds_age (bound : Z) (r : SQL.row) :
  SQL.where_holds bound r = true ↔ ∃ n, r "age"%string = SQL.VInt n ∧ n ≤ bound.
Proof.
  unfold SQL.where_holds. destruct (r "age"%string) as [|n|s].
  - split; [done | by intros (? & [=] & _)].
  - rewrite Z.leb_le. split; [eauto | by intros (? & [= <-] & ?)].
  - split; [done | by intros (? & [=] & _)].
Qed.

(** What the extraction query returns: for each row within the age bound,
    in the order of the table, its fifteen cells. *)
Lemma run_source_query (a : Z) (d : string) (census : list SQL.row) :
  SQL.run (source_query a d) census
  = map (λ r, map (SQL.eval_item r) SOURCE_SELECT)
        (filter (λ r, SQL.where_holds a r = true) census).
Proof. reflexivity. Qed.

(** X4. Every record of [train.csv] has in its first field, the [age]
    column, an integer of at most 100, and in its last field, the column
    named by [TARGET_FEATURE_NAME], the label 0 or 1; the column named by
    [WEIGHT_FEATURE_NAME] is the third.  There are at most as many records
    as the table has rows. *)
Theorem train_csv_age_and_label
    (cell_text : SQL.value → string) (census : list SQL.row) :
  SELECTED_COLUMNS !! 0%nat = Some "age"%string
  ∧ SELECTED_COLUMNS !! 2%nat = Some WEIGHT_FEATURE_NAME
  ∧ SELECTED_COLUMNS !! 14%nat = Some TARGET_FEATURE_NAME
  ∧ Forall (λ fields : list string,
              ∃ n label : Z,
                fields !! 0%nat = Some (cell_text (SQL.VInt n))
                ∧ n ≤ 100
                ∧ fields !! 14%nat = Some (cell_text (SQL.VInt label))
                ∧ (label = 0 ∨ label = 1))
           (tail (train_csv cell_text census))
  ∧ (length (tail (train_csv cell_text census)) ≤ length census)%nat.
Proof.
  split; [reflexivity |]. split; [reflexivity |]. split; [reflexivity |].
  change (tail (train_csv cell_text census))
    with (zip_with (λ (_ : Z) r, map cell_text r)
            (Pandas.index (df census)) (Pandas.data (df census))).
  split.
  - apply (zip_with_records_Forall cell_text
             (λ cells, ∃ n label : Z,
                cells !! 0%nat = Some (SQL.VInt n) ∧ n ≤ 100
                ∧ cells !! 14%nat = Some (SQL.VInt label)
                ∧ (label = 0 ∨ label = 1))).
    + intros cells (n & label & H0 & Hn & H14 & Hl). exists n, label.
      rewrite !list_lookup_fmap, H0, H14. done.
    + cbn [df Pandas.to_dataframe Pandas.data]. rewrite run_source_query.
      apply Forall_forall. intros cells Hcells.
      apply list_elem_of_fmap in Hcells as (r & -> & Hr).
      apply list_elem_of_filter in Hr as [Hr _].
      apply where_holds_age in Hr as (n & Hage & Hn).
      destruct (recode_label_cases (r "income_bracket"%string)) as [E|E].
      * exists n, 0. cbn. rewrite Hage. repeat split; try done.
        f_equal. exact E. by left.
      * exists n, 1. cbn. rewrite Hage. repeat split; try done.
        f_equal. exact E. by right.
  - cbn [df Pandas.to_dataframe Pandas.index Pandas.data].
    rewrite length_zip_with, length_map, length_seq, run_source_query, length_map.
    pose proof (length_filter (λ r, SQL.where_holds 100 r = true) census). lia.
Qed.

Lemma sum_list_with_add {A : Type} (f g : A → nat) (l : list A) :
  sum_list_with (λ x, f x + g x)%nat l
  = (sum_list_with f l + sum_list_with g l)%nat.
Proof. induction l as [|x l IH]; cbn; [done |]. rewrite IH. lia. Qed.

Lemma sum_list_with_pointwise {A : Type} (f g : A → nat) (l : list A) :
  (∀ x, f x = g x) → sum_list_with f l = sum_list_with g l.
Proof.
  intros E. induction l as [|x l IH]; [done |].
  change (f x + sum_list_with f l = g x + sum_list_with g l)%nat.
  by rewrite E, IH.
Qed.

(** Among distinct keys, one key is met once. *)
Lemma sum_indicator (x : SQL.value) (ks : list SQL.value) :
  NoDup ks →
  sum_list_with (λ k, if decide (x = k) then 1 else 0)%nat ks
  = (if decide (x ∈ ks) then 1 else 0)%nat.
Proof.
  induction 1 as [|k ks Hk _ IH]; cbn; [done |]. rewrite IH.
  destruct (decide (x = k)) as [->|Hne].
  - rewrite (decide_True (P := k ∈ k :: ks)) by apply list_elem_of_here.
    by rewrite decide_False.
  - destruct (decide (x ∈ ks)) as [Hin|Hin].
    + by rewrite decide_True by (by apply list_elem_of_further).
    + rewrite decide_False; [done |].
      rewrite elem_of_cons. by intros [?|?].
Qed.

(** Counting per key over distinct keys that cover a list counts the
    list. *)
Lemma sum_counts (ks l : list SQL.value) :
  NoDup ks →
  (∀ x, x ∈ l → x ∈ ks) →
  sum_list_with (λ k, length (filter (λ x, x = k) l)) ks = length l.
Proof.
  intros Hnd. induction l as [|x l IH]; intros Hcover.
  - clear. induction ks as [|k ks IHks]; [done | exact IHks].
  - transitivity
      (sum_list_with
         (λ k, (if decide (x = k) then 1 else 0)
               + length (filter (λ y, y = k) l))%nat ks).
    { apply sum_list_with_pointwise. intros k.
      destruct (decide (x = k)) as [->|Hne].
      - by rewrite filter_cons_True.
      - by rewrite filter_cons_False. }
    rewrite sum_list_with_add, sum_indicator by done.
    rewrite decide_True by apply Hcover, list_elem_of_here.
    rewrite IH by (intros y Hy; by apply Hcover, list_elem_of_further). done.
Qed.

Lemma total_count_class_distribution (ks : list SQL.value) (census : list SQL.row) :
  total_count (map (λ k, (k, bracket_count k census)) ks)
  = Z.of_nat
      (sum_list_with
         (λ k, length (filter (λ x, x = k) (income_brackets census))) ks).
Proof.
  induction ks as [|k ks IH]; cbn; [done |].
  unfold total_count in IH. rewrite IH. unfold bracket_count. lia.
Qed.

Lemma filter_absent (k : SQL.value) (l : list SQL.value) :
  k ∉ l → filter (λ x, x = k) l = [].
Proof.
  induction l as [|x l IH]; [done |]. rewrite not_elem_of_cons. intros [Hne Hk].
  rewrite filter_cons_False by congruence. by apply IH.
Qed.

(** The count shown for a bracket is the number of rows that have it, 0
    for a bracket no row has. *)
Lemma shown_count_class_distribution (k : SQL.value) (census : list SQL.row) :
  shown_count k (class_distribution census) = bracket_count k census.
Proof.
  unfold shown_count, class_distribution.
  rewrite (list_find_fmap (λ k', (k', bracket_count k' census))
             (λ kc : SQL.value * Z, kc.1 = k)).
  destruct (list_find _ (remove_dups (income_brackets census)))
    as [[i k']|] eqn:E; cbn.
  - apply list_find_Some in E as (_ & E & _). cbn in E. by subst k'.
  - apply list_find_None in E. unfold bracket_count.
    assert (Hk : k ∉ income_brackets census).
    { intros Hin. apply elem_of_remove_dups in Hin.
      rewrite Forall_forall in E. by apply (E k Hin). }
    by rewrite filter_absent.
Qed.

(** X5. The class distribution of cell 7 has one row per distinct
    [income_bracket] of the table and no other; every count is at least 1
    and is the number of rows with that bracket; a bracket that is not shown
    has no row; and the counts add up to the number of rows of the table. *)
Theorem class_distribution_counts (census : list SQL.row) :
  NoDup (class_distribution census).*1
  ∧ (∀ k, k ∈ (class_distribution census).*1 ↔ k ∈ income_brackets census)
  ∧ Forall (λ kc : SQL.value * Z, 1 ≤ kc.2) (class_distribution census)
  ∧ (∀ k, shown_count k (class_distribution census) = bracket_count k census)
  ∧ total_count (class_distribution census) = Z.of_nat (length census).
Proof.
  assert (Hkeys : (class_distribution census).*1
                  = remove_dups (income_brackets census)).
  { unfold class_distribution. rewrite <- list_fmap_compose.
    apply list_fmap_id. }
  split; [rewrite Hkeys; apply NoDup_remove_dups |].
  split; [intros k; by rewrite Hkeys, elem_of_remove_dups |].
  split; [| split; [intros k; apply shown_count_class_distribution |]].
  - unfold class_distribution. apply Forall_fmap, Forall_forall.
    intros k Hk. rewrite elem_of_remove_dups in Hk. cbn. unfold bracket_count.
    assert (Hin : k ∈ filter (λ x, x = k) (income_brackets census))
      by (apply list_elem_of_filter; split; [reflexivity | exact Hk]).
    destruct (filter (λ x, x = k) (income_brackets census)); [| cbn; lia].
    by apply elem_of_nil in Hin.
  - unfold class_distribution. rewrite total_count_class_distribution.
    rewrite sum_counts.
    + unfold income_brackets. by rewrite length_map.
    + apply NoDup_remove_dups.
    + intros x Hx. by rewrite elem_of_remove_dups.
Qed.

Lemma recode_label_zero (v : SQL.value) :
  recode_label v = SQL.VInt 0 ↔ v = SQL.VStr " <=50K".
Proof.
  unfold recode_label, income_bracket_case. cbn [SQL.eval_item].
  rewrite <- equals_literal_spec.
  destruct (SQL.equals_literal v " <=50K"); split; done.
Qed.

(** The labels of the extracted rows are the recoded brackets of the rows
    within the age bound, in the order of the table. *)
Lemma labels_run (a : Z) (d : string) (census : list SQL.row) :
  labels (SQL.run (source_query a d) census)
  = map recode_label
      (income_brackets (filter (λ r, SQL.where_holds a r = true) census)).
Proof.
  rewrite run_source_query. unfold labels, income_brackets.
  induction (filter (λ r, SQL.where_holds a r = true) census) as [|r l IH];
    [done |].
  change (recode_label (r "income_bracket"%string)
          :: omap last (map (λ r, map (SQL.eval_item r) SOURCE_SELECT) l)
          = recode_label (r "income_bracket"%string)
            :: map recode_label (map (λ r : SQL.row, r "income_bracket"%string) l)).
  by rewrite IH.
Qed.

Lemma filter_all {A : Type} (P : A → Prop) `{!∀ x, Decision (P x)} (l : list A) :
  Forall P l → filter P l = l.
Proof.
  induction 1 as [|x l Hx _ IH]; [done |].
  by rewrite filter_cons_True, IH.
Qed.

Lemma recoded_zero_count (keys : list SQL.value) :
  length (filter (λ v, v = SQL.VInt 0) (map recode_label keys))
  = length (filter (λ v, v = SQL.VStr " <=50K") keys).
Proof.
  induction keys as [|k keys IH]; [done |]. cbn [map].
  destruct (decide (k = SQL.VStr " <=50K")) as [Hk|Hk].
  - rewrite !filter_cons_True by (done || by apply recode_label_zero).
    cbn. by rewrite IH.
  - rewrite !filter_cons_False; [done | done |].
    by rewrite recode_label_zero.
Qed.

Lemma recoded_one_count (keys : list SQL.value) :
  (length (filter (λ v, v = SQL.VInt 1) (map recode_label keys))
   + length (filter (λ v, v = SQL.VInt 0) (map recode_label keys))
   = length keys)%nat.
Proof.
  induction keys as [|k keys IH]; [done |]. cbn [map length].
  destruct (recode_label_cases k) as [E|E]; rewrite E.
  - rewrite filter_cons_False by done. rewrite filter_cons_True by done.
    cbn. lia.
  - rewrite filter_cons_True by done. rewrite filter_cons_False by done.
    cbn. lia.
Qed.

(** X6. When every row of the table is within the age bound, the extracted
    rows carry the class balance of cell 7: there is one label per row of
    the table, the number of labels 0 is the count the class distribution
    shows for [ <=50K], and the number of labels 1 is the count of all the
    other brackets together. *)
Theorem labels_match_class_distribution
    (a : Z) (d : string) (census : list SQL.row) :
  Forall (λ r, SQL.where_holds a r = true) census →
  length (labels (SQL.run (source_query a d) census)) = length census
  ∧ Z.of_nat (length (filter (λ v, v = SQL.VInt 0)
                        (labels (SQL.run (source_query a d) census))))
    = shown_count (SQL.VStr " <=50K") (class_distribution census)
  ∧ Z.of_nat (length (filter (λ v, v = SQL.VInt 1)
                        (labels (SQL.run (source_query a d) census))))
    = total_count (class_distribution census)
      - shown_count (SQL.VStr " <=50K") (class_distribution census).
Proof.
  intros Hall. rewrite labels_run, (filter_all _ census Hall).
  rewrite shown_count_class_distribution.
  assert (Htotal : total_count (class_distribution census)
                   = Z.of_nat (length (income_brackets census))).
  { unfold class_distribution. rewrite total_count_class_distribution.
    rewrite sum_counts; [done | apply NoDup_remove_dups |].
    intros x Hx. by rewrite elem_of_remove_dups. }
  rewrite Htotal.
  pose proof (recoded_one_count (income_brackets census)) as Hone.
  rewrite recoded_zero_count in *. unfold bracket_count.
  split; [unfold income_brackets; by rewrite !length_map |].
  split; [done | lia].
Qed.

Lemma labels_match_class_distribution_witness :
  Z.of_nat
    (length
       (filter (λ v, v = SQL.VInt 0)
          (labels
             (SQL.run (source_query 100 "sample_dataset")
                [census_row 39 " <=50K"; census_row 50 " >50K";
                 census_row 17 " <=50K"]))))
  = shown_count (SQL.VStr " <=50K")
      (class_distribution
         [census_row 39 " <=50K"; census_row 50 " >50K"; census_row 17 " <=50K"]).
Proof.
  apply (labels_match_class_distribution 100 "sample_dataset").
  repeat constructor.
Defined.

(** ** More on the schema edits *)

(** The lookups raise [ValueError] and nothing else. *)
Lemma get_feature_raises (s : Tfdv.Schema) (n : string) (e : exn) :
  Tfdv.get_feature s n = Raise e → e = ValueError.
Proof.
  unfold Tfdv.get_feature. destruct (list_find _ _) as [[? ?]|]; [done |].
  by intros [= <-].
Qed.

Lemma get_domain_raises (s : Tfdv.Schema) (n : string) (e : exn) :
  Tfdv.get_domain s n = Raise e → e = ValueError.
Proof.
  unfold Tfdv.get_domain.
  destruct (Tfdv.get_feature s n) as [i|e'] eqn:Hi; cbn.
  - destruct (Tfdv.domain_info <$> Tfdv.feature s !! i) as [[|d| |]|];
      try done; try by intros [= <-].
    destruct (list_find _ _) as [[? ?]|]; [done | by intros [= <-]].
  - intros [= <-]. by apply get_feature_raises in Hi.
Qed.

(** Cell 29 with its three lookups made on the schema as it comes in, in
    the order of the cell: the edits in between do not change what the
    lookups find. *)
Lemma alter_schema_lookups_first (schema : Tfdv.Schema) :
  alter_schema schema
  = (occupation ← Tfdv.get_feature schema "occupation";
     native_country_domain ← Tfdv.get_domain schema "native_country";
     edited ← Tfdv.domain_value_append native_country_domain "Egypt"
                (Tfdv.update_feature occupation (Tfdv.set_min_domain_mass 0.9)
                   schema);
     target ← Tfdv.get_feature schema TARGET_FEATURE_NAME;
     Ok (Tfdv.update_feature target (Tfdv.append_not_in_environment "SERVING")
           (register_environments edited))).
Proof.
  unfold alter_schema. cbv zeta.
  destruct (Tfdv.get_feature schema "occupation") as [occ|e] eqn:Hocc; [| done].
  cbn [mbind result_bind].
  set (s1 := Tfdv.update_feature occ (Tfdv.set_min_domain_mass 0.9) schema).
  assert (N1 : Tfdv.name <$> Tfdv.feature s1 = Tfdv.name <$> Tfdv.feature schema)
    by (by apply fmap_alter_kept).
  assert (Hr : Tfdv.get_domain s1 "native_country"
               = Tfdv.get_domain schema "native_country").
  { apply get_domain_same_shape; try done. by apply fmap_alter_kept. }
  rewrite Hr.
  destruct (Tfdv.get_domain schema "native_country") as [r|e]; [| done].
  cbn [mbind result_bind].
  destruct (Tfdv.domain_value_append r "Egypt" s1) as [s2|e] eqn:Hs2.
  - cbn [mbind result_bind].
    destruct (domain_value_append_Ok _ _ _ _ Hs2) as (N2 & _).
    assert (Ht : Tfdv.get_feature (register_environments s2) TARGET_FEATURE_NAME
                 = Tfdv.get_feature schema TARGET_FEATURE_NAME).
    { apply get_feature_same_names.
      change (Tfdv.feature (register_environments s2)) with (Tfdv.feature s2).
      congruence. }
    by rewrite Ht.
  - done.
Qed.

(** A domain found among the schema's string domains is there. *)
Lemma get_domain_in_schema (s : Tfdv.Schema) (n : string) (k : nat) :
  Tfdv.get_domain s n = Ok (Tfdv.InSchema k) →
  is_Some (Tfdv.domain_at s (Tfdv.InSchema k)).
Proof.
  intros H. by eapply (domain_value_append_target _ "Egypt" n s).
Qed.

(** Whether the append to the domain goes through depends on the schema as
    it came in. *)
Lemma domain_value_append_after_occupation (schema : Tfdv.Schema)
    (occ : nat) (r : Tfdv.domain_ref) :
  match Tfdv.domain_value_append r "Egypt"
          (Tfdv.update_feature occ (Tfdv.set_min_domain_mass 0.9) schema) with
  | Ok _ =>
      match r with
      | Tfdv.InSchema _ => True
      | Tfdv.InFeature _ => is_Some (Tfdv.domain_at schema r)
      end
  | Raise e =>
      e = AttributeError
      ∧ ∃ i, r = Tfdv.InFeature i ∧ Tfdv.domain_at schema r = None
  end.
Proof.
  destruct r as [k|i]; cbn [Tfdv.domain_value_append]; [done |].
  rewrite (domain_at_same_shape _ schema); [| by apply fmap_alter_kept | done].
  destruct (Tfdv.domain_at schema (Tfdv.InFeature i)) as [d|] eqn:Hd; eauto.
Qed.

(** X7. Cell 29 runs through exactly on a schema that has the features
    [occupation] and [income_bracket] and a string domain for
    [native_country].  It raises [AttributeError] exactly when [occupation]
    is there and [native_country] has a domain of its own that is no string
    domain; every other failure is the [ValueError] of a lookup, and a
    missing [occupation] is reported first. *)
Theorem alter_schema_outcome (schema : Tfdv.Schema) :
  ((∃ altered, alter_schema schema = Ok altered)
   ↔ (∃ i, Tfdv.get_feature schema "occupation" = Ok i)
     ∧ (∃ r, Tfdv.get_domain schema "native_country" = Ok r
             ∧ is_Some (Tfdv.domain_at schema r))
     ∧ (∃ j, Tfdv.get_feature schema TARGET_FEATURE_NAME = Ok j))
  ∧ (alter_schema schema = Raise AttributeError
     ↔ (∃ i, Tfdv.get_feature schema "occupation" = Ok i)
       ∧ (∃ i', Tfdv.get_domain schema "native_country" = Ok (Tfdv.InFeature i')
                ∧ Tfdv.domain_at schema (Tfdv.InFeature i') = None))
  ∧ (∀ e, alter_schema schema = Raise e → e = ValueError ∨ e = AttributeError)
  ∧ (Tfdv.get_feature schema "occupation" = Raise ValueError →
     alter_schema schema = Raise ValueError).
Proof.
  rewrite alter_schema_lookups_first.
  destruct (Tfdv.get_feature schema "occupation") as [occ|e1] eqn:Hocc;
    cbn [mbind result_bind].
  2: { apply get_feature_raises in Hocc as ->.
       repeat split; try naive_solver. }
  destruct (Tfdv.get_domain schema "native_country") as [r|e2] eqn:Hr;
    cbn [mbind result_bind].
  2: { apply get_domain_raises in Hr as ->.
       repeat split; try naive_solver. }
  pose proof (domain_value_append_after_occupation schema occ r) as Happ.
  destruct (Tfdv.domain_value_append r "Egypt" _) as [s2|e3];
    cbn [mbind result_bind].
  2: { destruct Happ as (-> & i & -> & Hd).
       repeat split; try naive_solver.
       intros (_ & (r' & [= <-] & [d Hd']) & _). congruence. }
  assert (Hsome : is_Some (Tfdv.domain_at schema r)).
  { destruct r as [k|i]; [by eapply get_domain_in_schema | done]. }
  destruct (Tfdv.get_feature schema TARGET_FEATURE_NAME) as [tgt|e4] eqn:Ht;
    cbn [mbind result_bind].
  - repeat split; try naive_solver.
    intros (_ & (i' & [= ->] & Hnone)). rewrite Hnone in Hsome.
    by destruct Hsome.
  - apply get_feature_raises in Ht as ->.
    repeat split; try naive_solver.
    intros (_ & (i' & [= ->] & Hnone)). rewrite Hnone in Hsome.
    by destruct Hsome.
Qed.

(** What [r.value.append(v)] leaves alone: the other string domains, the
    other features, and the names of the domains. *)
Lemma domain_value_append_frame (r : Tfdv.domain_ref) (v : string)
    (s s2 : Tfdv.Schema) :
  Tfdv.domain_value_append r v s = Ok s2 →
  (∀ k, r ≠ Tfdv.InSchema k → Tfdv.string_domain s2 !! k = Tfdv.string_domain s !! k)
  ∧ (∀ k, r ≠ Tfdv.InFeature k → Tfdv.feature s2 !! k = Tfdv.feature s !! k)
  ∧ Tfdv.domain_name <$> Tfdv.string_domain s2
    = Tfdv.domain_name <$> Tfdv.string_domain s.
Proof.
  destruct r as [k0|i0]; cbn [Tfdv.domain_value_append].
  - intros [= <-]. cbn. repeat split; try done.
    + intros k Hk. apply list_lookup_alter_ne. congruence.
    + by apply fmap_alter_kept.
  - destruct (Tfdv.domain_at s (Tfdv.InFeature i0)) as [d|] eqn:Hd; [| done].
    intros [= <-]. cbn [Tfdv.update_feature Tfdv.feature Tfdv.string_domain].
    repeat split; try done.
    intros k Hk. apply list_lookup_alter_ne. congruence.
Qed.

(** What cell 29 does to a schema, field by field. *)
Lemma alter_schema_effect (schema altered : Tfdv.Schema) :
  alter_schema schema = Ok altered →
  ∃ (occ : nat) (r : Tfdv.domain_ref) (tgt : nat),
    Tfdv.get_feature schema "occupation" = Ok occ
    ∧ Tfdv.get_domain schema "native_country" = Ok r
    ∧ Tfdv.get_feature schema TARGET_FEATURE_NAME = Ok tgt
    ∧ Tfdv.name <$> Tfdv.feature altered = Tfdv.name <$> Tfdv.feature schema
    ∧ Tfdv.domain_name <$> Tfdv.string_domain altered
      = Tfdv.domain_name <$> Tfdv.string_domain schema
    ∧ Tfdv.default_environment altered
      = Tfdv.default_environment schema ++ ENVIRONMENTS
    ∧ Tfdv.get_domain altered "native_country" = Ok r
    ∧ (∃ d, Tfdv.domain_at schema r = Some d
            ∧ Tfdv.domain_at altered r = Some (Tfdv.append_value "Egypt" d))
    ∧ (∀ k, r ≠ Tfdv.InSchema k →
            Tfdv.string_domain altered !! k = Tfdv.string_domain schema !! k)
    ∧ (∀ k, k ≠ occ → k ≠ tgt → r ≠ Tfdv.InFeature k →
            Tfdv.feature altered !! k = Tfdv.feature schema !! k)
    ∧ (∃ f, Tfdv.feature schema !! tgt = Some f
            ∧ Tfdv.not_in_environment <$> Tfdv.feature altered !! tgt
              = Some (Tfdv.not_in_environment f ++ ["SERVING"%string]))
    ∧ (∀ k, k ≠ tgt →
            Tfdv.not_in_environment <$> Tfdv.feature altered !! k
            = Tfdv.not_in_environment <$> Tfdv.feature schema !! k)
    ∧ Tfdv.distribution_constraints <$> Tfdv.feature altered !! occ
      = Some {| Tfdv.min_domain_mass := Some 0.9%float |}
    ∧ (∀ k, k ≠ occ →
            Tfdv.distribution_constraints <$> Tfdv.feature altered !! k
            = Tfdv.distribution_constraints <$> Tfdv.feature schema !! k).
Proof.
  intros H. pose proof (alter_schema_default_environment _ _ H) as Henv.
  rewrite alter_schema_lookups_first in H.
  apply bind_Ok in H as (occ & Hocc & H).
  apply bind_Ok in H as (r & Hr & H).
  apply bind_Ok in H as (s2 & Hs2 & H).
  apply bind_Ok in H as (tgt & Htgt & H).
  injection H as <-.
  set (s1 := Tfdv.update_feature occ (Tfdv.set_min_domain_mass 0.9) schema) in *.
  exists occ, r, tgt. split; [done |]. split; [done |]. split; [done |].
  destruct (domain_value_append_Ok _ _ _ _ Hs2) as (N2 & C2 & E2 & _ & D2).
  destruct (domain_value_append_frame _ _ _ _ Hs2) as (F1 & F2 & F3).
  assert (Hr1 : Tfdv.get_domain s1 "native_country" = Ok r).
  { rewrite <- Hr. apply get_domain_same_shape; try done; by apply fmap_alter_kept. }
  destruct (domain_value_append_target _ _ _ _ _ Hr1 Hs2) as [d Hd1].
  assert (Hd : Tfdv.domain_at schema r = Some d).
  { rewrite <- Hd1. symmetry. apply domain_at_same_shape; [| done].
    by apply fmap_alter_kept. }
  destruct (get_feature_found _ _ _ Htgt) as (ft & Hft & _).
  destruct (get_feature_found _ _ _ Hocc) as (fo & Hfo & _).
  cbn [Tfdv.update_feature Tfdv.feature Tfdv.string_domain
       register_environments Tfdv.default_environment_append].
  split. { rewrite fmap_alter_kept by done. rewrite N2. by apply fmap_alter_kept. }
  split; [exact F3 |]. split; [exact Henv |]. split.
  { rewrite <- (domain_value_append_get_domain _ _ _ _ _ Hr1 Hs2).
    apply get_domain_same_shape; cbn; try done; by apply fmap_alter_kept. }
  split.
  { exists d. split; [exact Hd |].
    transitivity (Tfdv.domain_at s2 r); [| by rewrite D2, Hd1].
    apply domain_at_same_shape; cbn; [by apply fmap_alter_kept | done]. }
  split; [exact F1 |]. split.
  { intros k Hko Hkt Hkr. rewrite list_lookup_alter_ne by done.
    rewrite F2 by done. unfold s1. cbn. by rewrite list_lookup_alter_ne. }
  assert (Hnie : ∀ k, Tfdv.not_in_environment <$> Tfdv.feature s2 !! k
                      = Tfdv.not_in_environment <$> Tfdv.feature schema !! k).
  { intros k. rewrite <- !list_lookup_fmap, E2. unfold s1. cbn.
    by rewrite fmap_alter_kept. }
  assert (Hdc : ∀ k, Tfdv.distribution_constraints <$> Tfdv.feature s2 !! k
                     = Tfdv.distribution_constraints <$> Tfdv.feature s1 !! k).
  { intros k. by rewrite <- !list_lookup_fmap, C2. }
  split.
  { exists ft. split; [exact Hft |]. rewrite list_lookup_alter_eq.
    pose proof (Hnie tgt) as Ht. rewrite Hft in Ht.
    destruct (Tfdv.feature s2 !! tgt) as [f2|]; cbn in *; [| done].
    congruence. }
  split.
  { intros k Hk. rewrite list_lookup_alter_ne by done. apply Hnie. }
  split.
  { rewrite lookup_alter_kept by done. rewrite Hdc. unfold s1. cbn.
    by rewrite list_lookup_alter_eq, Hfo. }
  intros k Hk. rewrite lookup_alter_kept by done. rewrite Hdc. unfold s1. cbn.
  by rewrite list_lookup_alter_ne.
Qed.

(** X8. Where cell 29 runs through, it keeps the features and the string
    domains in place and in order under their names; a feature other than
    [occupation], [native_country] and [income_bracket] is as it was; the
    domain of [native_country] has its old values in their order with
    [Egypt] put last, and the other string domains are as they were;
    [income_bracket] has [SERVING] put last in [not_in_environment], and no
    other feature's [not_in_environment] changes; no feature but
    [occupation] has its distribution constraints changed. *)
Theorem alter_schema_frame (schema altered : Tfdv.Schema) :
  alter_schema schema = Ok altered →
  Tfdv.name <$> Tfdv.feature altered = Tfdv.name <$> Tfdv.feature schema
  ∧ Tfdv.domain_name <$> Tfdv.string_domain altered
    = Tfdv.domain_name <$> Tfdv.string_domain schema
  ∧ (∀ k f, Tfdv.feature schema !! k = Some f →
            Tfdv.name f ≠ "occupation"%string →
            Tfdv.name f ≠ "native_country"%string →
            Tfdv.name f ≠ TARGET_FEATURE_NAME →
            Tfdv.feature altered !! k = Some f)
  ∧ (∃ r d, Tfdv.get_domain schema "native_country" = Ok r
            ∧ Tfdv.domain_at schema r = Some d
            ∧ Tfdv.get_domain altered "native_country" = Ok r
            ∧ Tfdv.domain_at altered r
              = Some {| Tfdv.domain_name := Tfdv.domain_name d;
                        Tfdv.value := Tfdv.value d ++ ["Egypt"%string] |}
            ∧ ∀ k, r ≠ Tfdv.InSchema k →
                   Tfdv.string_domain altered !! k = Tfdv.string_domain schema !! k)
  ∧ (∃ j f, Tfdv.get_feature schema TARGET_FEATURE_NAME = Ok j
            ∧ Tfdv.feature schema !! j = Some f
            ∧ Tfdv.not_in_environment <$> Tfdv.feature altered !! j
              = Some (Tfdv.not_in_environment f ++ ["SERVING"%string])
            ∧ ∀ k, k ≠ j →
                   Tfdv.not_in_environment <$> Tfdv.feature altered !! k
                   = Tfdv.not_in_environment <$> Tfdv.feature schema !! k)
  ∧ (∃ i, Tfdv.get_feature schema "occupation" = Ok i
          ∧ ∀ k, k ≠ i →
                 Tfdv.distribution_constraints <$> Tfdv.feature altered !! k
                 = Tfdv.distribution_constraints <$> Tfdv.feature schema !! k).
Proof.
  intros H.
  destruct (alter_schema_effect schema altered H)
    as (occ & r & tgt & Hocc & Hr & Htgt & Hn & Hdn & _ & Hr' & (d & Hd & Hd')
        & Hsd & Hother & (ft & Hft & Hnie) & Hnie' & _ & Hdc).
  split; [exact Hn |]. split; [exact Hdn |]. split.
  - intros k f Hf Ho Hc Ht. rewrite <- Hf. apply Hother.
    + intros ->. destruct (get_feature_found _ _ _ Hocc) as (f' & Hf' & Hname).
      congruence.
    + intros ->. destruct (get_feature_found _ _ _ Htgt) as (f' & Hf' & Hname).
      congruence.
    + intros ->. apply get_domain_in_feature in Hr.
      destruct (get_feature_found _ _ _ Hr) as (f' & Hf' & Hname). congruence.
  - split; [by exists r, d |]. split; [by exists tgt, ft |]. by exists occ.
Qed.

Lemma alter_schema_frame_witness :
  Tfdv.name <$> Tfdv.feature altered_example
  = Tfdv.name <$> Tfdv.feature inferred_example.
Proof.
  apply (alter_schema_frame inferred_example altered_example). reflexivity.
Defined.

(** X9. Cell 29 run a second time on its own result runs through again and
    appends again to every list it appends to: [Egypt] is then twice at the
    end of the domain of [native_country], [SERVING] twice at the end of
    [not_in_environment] of [income_bracket], the three environment names
    twice at the end of [default_environment]; [min_domain_mass] of
    [occupation], an assignment, stays 0.9. *)
Theorem alter_schema_rerun (schema altered : Tfdv.Schema) :
  alter_schema schema = Ok altered →
  ∃ again,
    alter_schema altered = Ok again
    ∧ Tfdv.default_environment again
      = Tfdv.default_environment schema ++ ENVIRONMENTS ++ ENVIRONMENTS
    ∧ (∃ r d, Tfdv.get_domain schema "native_country" = Ok r
              ∧ Tfdv.domain_at schema r = Some d
              ∧ Tfdv.value <$> Tfdv.domain_at again r
                = Some (Tfdv.value d ++ ["Egypt"; "Egypt"]%string))
    ∧ (∃ j f, Tfdv.get_feature schema TARGET_FEATURE_NAME = Ok j
              ∧ Tfdv.feature schema !! j = Some f
              ∧ Tfdv.not_in_environment <$> Tfdv.feature again !! j
                = Some (Tfdv.not_in_environment f ++ ["SERVING"; "SERVING"]%string))
    ∧ (∃ i, Tfdv.get_feature schema "occupation" = Ok i
            ∧ Tfdv.distribution_constraints <$> Tfdv.feature altered !! i
              = Some {| Tfdv.min_domain_mass := Some 0.9%float |}
            ∧ Tfdv.distribution_constraints <$> Tfdv.feature again !! i
              = Some {| Tfdv.min_domain_mass := Some 0.9%float |}).
Proof.
  intros H.
  destruct (alter_schema_twice schema altered H) as (again & Hagain & Henv).
  exists again. split; [exact Hagain |]. split; [exact Henv |].
  destruct (alter_schema_effect schema altered H)
    as (occ & r & tgt & Hocc & Hr & Htgt & Hn & _ & _ & Hr' & (d & Hd & Hd')
        & _ & _ & (ft & Hft & Hnie) & _ & Hdc & _).
  destruct (alter_schema_effect altered again Hagain)
    as (occ2 & r2 & tgt2 & Hocc2 & Hr2 & Htgt2 & _ & _ & _ & _ & (d2 & Hd2 & Hd2')
        & _ & _ & (ft2 & Hft2 & Hnie2) & _ & Hdc2 & _).
  rewrite (get_feature_same_names altered schema) in Hocc2, Htgt2 by done.
  assert (occ2 = occ) as -> by congruence.
  assert (tgt2 = tgt) as -> by congruence.
  assert (r2 = r) as -> by congruence.
  split; [| split].
  - exists r, d. split; [done |]. split; [done |].
    rewrite Hd2'. assert (d2 = Tfdv.append_value "Egypt" d) as -> by congruence.
    cbn. by rewrite <- app_assoc.
  - exists tgt, ft. split; [done |]. split; [done |].
    rewrite Hnie2. rewrite Hft2 in Hnie. cbn in Hnie.
    injection Hnie as ->. by rewrite <- app_assoc.
  - exists occ. done.
Qed.

Lemma alter_schema_rerun_witness :
  ∃ again,
    alter_schema altered_example = Ok again
    ∧ Tfdv.default_environment again
      = Tfdv.default_environment inferred_example ++ ENVIRONMENTS ++ ENVIRONMENTS.
Proof.
  destruct (alter_schema_rerun inferred_example altered_example eq_refl)
    as (again & H1 & H2 & _).
  exists again. by split.
Defined.

(** ** File systems that hang together *)















(** ** The schema directory *)









(** The schema directory as a link: to a directory elsewhere, and to
    nowhere. *)
Example reset_raw_schema_dir_links :
  reset_raw_schema_dir
    {[ RAW_SCHEMA_DIR := Gfile.Link ["schemas"%string];
       ["schemas"%string] := Gfile.Dir ]}
  = inl Os.OSError
  ∧ reset_raw_schema_dir {[ RAW_SCHEMA_DIR := Gfile.Link ["schemas"%string] ]}
    = inl Os.FileExistsError.
Proof. split; vm_compute; reflexivity. Qed.
